(** * snakemq/queues.py: queues with time-to-live over a persistent storage

    A shallow embedding of [snakemq/queues.py] (classes [Item], [Queue],
    [QueuesManager], [SqliteQueuesStorage]) and the properties of its
    time-to-live bookkeeping, FIFO discipline and persistence.

    Python objects are mutable and shared, so [Item] and [Queue] objects live
    in an object store and are handled by address.  The sqlite file is the
    table [items]; a statement of the sqlite3 module either raises or acts on
    the table.  Statements are Python 3 statements: [dict.items()] is a live
    view of the dictionary, [time.time()] is a binary64 float. *)

From Stdlib Require Import ZArith String List Bool Lia.
From Stdlib Require Import Floats.PrimFloat Floats.SpecFloat Floats.FloatOps Floats.FloatAxioms.
From stdpp Require Import base option list.

Local Open Scope Z_scope.
Local Open Scope string_scope.
Local Open Scope list_scope.

(** ** Exceptions and outcomes *)

(** The exception classes a statement of the module can raise.
    [BadReference] is not a Python exception: it is the outcome of following
    an address that the object store does not hold, which no well-formed
    world does.  [ManagerClosedError] is the class the specification names
    for a closed manager; queues.py defines no such class. *)
Inductive exn : Type :=
  | AttributeError      (* attribute of None, or of a str *)
  | TypeError           (* float - None, None - float *)
  | OverflowError       (* sqlite3: an int that does not fit 64 bits *)
  | RuntimeError        (* dictionary changed size during iteration *)
  | ProgrammingError    (* sqlite3: operation on a closed database *)
  | OperationalError    (* sqlite3: fault of the medium, missing table *)
  | ManagerClosedError
  | BadReference.

Inductive outcome (A : Type) : Type :=
  | Ret (a : A)
  | Raise (e : exn).
Arguments Ret {A} a.
Arguments Raise {A} e.

(** ** Data model *)

(** Addresses in the object store. *)
Abbreviation addr := nat (only parsing).

Definition FLAG_PERSISTENT : Z := 1.

(** [class Item]: four attributes, assigned by [__init__].  [ttl] is a
    float, or [None] on an item that [get_items] built from a record whose
    ttl is NULL. *)
Record Item : Type := Build_Item {
  uuid : string;
  data : string;
  ttl : option float;
  flags : Z
}.

(** [Item(uuid, data, ttl, flags)] with a float [ttl]. *)
Definition mkItem (uuid data : string) (ttl : float) (flags : Z) : Item :=
  Build_Item uuid data (Some ttl) flags.

(** A record of the table [items]
    (queue_name TEXT, uuid TEXT, data TEXT, ttl REAL, flags INTEGER);
    the table declares no key and no constraint, so [ttl] may be NULL
    ([None]). *)
Record Row : Type := Build_Row {
  r_queue_name : string;
  r_uuid : string;
  r_data : string;
  r_ttl : option float;
  r_flags : Z
}.

(** A record whose ttl is a number. *)
Definition mkRow (queue_name uuid data : string) (ttl : float) (flags : Z) : Row :=
  Build_Row queue_name uuid data (Some ttl) flags.

(** [class Queue]: [queue] is the Python list of [Item] objects,
    [last_disconnect_absolute] is [None] until [disconnect] runs.  The
    attribute [manager] is the one manager of the world. *)
Record Queue : Type := mkQueue {
  name : string;
  queue : list addr;
  last_disconnect_absolute : option float
}.

(** [class SqliteQueuesStorage]: the connection and its cursor. *)
Record SqliteQueuesStorage : Type := mkStorage {
  conn_closed : bool
}.

(** [class QueuesManager]: [storage] is [None] after [close]; [queues] is the
    dictionary name:Queue, kept in insertion order as Python 3 keeps it. *)
Record QueuesManager : Type := mkManager {
  storage : option SqliteQueuesStorage;
  queues : list (string * addr)
}.

(** The state of the process and of its surroundings. *)
Record World : Type := mkWorld {
  items : list Item;            (* Item objects, by address *)
  queue_objs : list Queue;      (* Queue objects, by address *)
  manager : QueuesManager;
  database : option (list Row); (* table items of the file, None if absent *)
  faults : list bool;           (* fate of the coming sqlite3 calls *)
  clock : float                 (* what time.time() returns *)
}.

Definition set_items (f : list Item -> list Item) (w : World) : World :=
  mkWorld (f (items w)) (queue_objs w) (manager w) (database w) (faults w) (clock w).
Definition set_queue_objs (f : list Queue -> list Queue) (w : World) : World :=
  mkWorld (items w) (f (queue_objs w)) (manager w) (database w) (faults w) (clock w).
Definition set_manager (f : QueuesManager -> QueuesManager) (w : World) : World :=
  mkWorld (items w) (queue_objs w) (f (manager w)) (database w) (faults w) (clock w).
Definition set_database (d : option (list Row)) (w : World) : World :=
  mkWorld (items w) (queue_objs w) (manager w) d (faults w) (clock w).
Definition set_faults (fs : list bool) (w : World) : World :=
  mkWorld (items w) (queue_objs w) (manager w) (database w) fs (clock w).
Definition set_clock (t : float) (w : World) : World :=
  mkWorld (items w) (queue_objs w) (manager w) (database w) (faults w) t.

Definition set_ttl (t : option float) (it : Item) : Item :=
  Build_Item (uuid it) (data it) t (flags it).
Definition set_queue (l : list addr) (q : Queue) : Queue :=
  mkQueue (name q) l (last_disconnect_absolute q).
Definition set_last_disconnect_absolute (t : option float) (q : Queue) : Queue :=
  mkQueue (name q) (queue q) t.

(** ** Statements: state passing with exceptions

    A statement maps a world to an outcome and a world.  What a statement
    did before it raised stays done. *)
Definition Py (A : Type) : Type := World -> outcome A * World.

#[global] Instance Py_ret : MRet Py := fun A a w => (Ret a, w).
#[global] Instance Py_bind : MBind Py := fun A B k m w =>
  match m w with
  | (Ret a, w') => k a w'
  | (Raise e, w') => (Raise e, w')
  end.

Definition raise {A : Type} (e : exn) : Py A := fun w => (Raise e, w).
Definition gets {A : Type} (f : World -> A) : Py A := fun w => (Ret (f w), w).
Definition modify (f : World -> World) : Py unit := fun w => (Ret tt, f w).

(** [for x in l: body]. *)
Fixpoint for_each {A : Type} (l : list A) (body : A -> Py unit) : Py unit :=
  match l with
  | [] => mret tt
  | x :: l' => body x ;; for_each l' body
  end.

(** [try: m / except Exception as e: ...] as the caller of a method sees it. *)
Definition attempt {A : Type} (m : Py A) : Py (outcome A) :=
  fun w => let (o, w') := m w in (Ret o, w').

(** [time.time()]. *)
Definition time_time : Py float := gets clock.

(** Objects by address. *)
Definition get_item (a : addr) : Py Item :=
  fun w => match items w !! a with
           | Some it => (Ret it, w)
           | None => (Raise BadReference, w)
           end.
Definition get_queue_obj (qa : addr) : Py Queue :=
  fun w => match queue_objs w !! qa with
           | Some q => (Ret q, w)
           | None => (Raise BadReference, w)
           end.
Definition new_item (it : Item) : Py addr :=
  fun w => (Ret (length (items w)), set_items (fun h => h ++ [it]) w).
Definition new_queue_obj (q : Queue) : Py addr :=
  fun w => (Ret (length (queue_objs w)), set_queue_objs (fun h => h ++ [q]) w).
Definition update_queue_obj (qa : addr) (f : Queue -> Queue) : Py unit :=
  modify (set_queue_objs (alter f qa)).

(** A Python value handed to [delete_items], which reads [.uuid] of it: an
    [Item] object (from [connect]), or a [str] (from [pop]). *)
Inductive pyobj : Type :=
  | PyItem (a : addr)
  | PyStr (s : string).

Definition attr_uuid (o : pyobj) : Py string :=
  match o with
  | PyItem a => it ← get_item a; mret (uuid it)
  | PyStr _ => raise AttributeError
  end.

(** [item.flags & FLAG_PERSISTENT] as a condition. *)
Definition persistent (it : Item) : bool :=
  negb (Z.eqb (Z.land (flags it) FLAG_PERSISTENT) 0).

(** [item.ttl >= 0], for a float [ttl]. *)
Definition alive (it : Item) : bool :=
  match ttl it with
  | Some t => PrimFloat.leb 0%float t
  | None => false
  end.

(** ** The sqlite3 module

    A call on the cursor or the connection raises [ProgrammingError] once the
    connection is closed; otherwise the medium decides: the head of [faults]
    tells whether the call raises [OperationalError], and no entry means no
    fault.  Only one connection is open on the file, so the table it sees is
    the table of the file. *)
Definition sqlite_call (s : SqliteQueuesStorage) : Py unit := fun w =>
  if conn_closed s then (Raise ProgrammingError, w)
  else match faults w with
       | true :: fs => (Raise OperationalError, set_faults fs w)
       | false :: fs => (Ret tt, set_faults fs w)
       | [] => (Ret tt, w)
       end.

(** [crs.execute] of a SELECT on [items], with [crs.fetchall()]. *)
Definition execute_select {A : Type} (s : SqliteQueuesStorage)
    (f : list Row -> A) : Py A :=
  sqlite_call s ;;
  d ← gets database;
  match d with
  | Some rows => mret (f rows)
  | None => raise OperationalError
  end.

(** [crs.execute] of an INSERT, DELETE or UPDATE on [items]. *)
Definition execute_dml (s : SqliteQueuesStorage)
    (f : list Row -> list Row) : Py unit :=
  sqlite_call s ;;
  d ← gets database;
  match d with
  | Some rows => modify (set_database (Some (f rows)))
  | None => raise OperationalError
  end.

(** [crs.execute] of an INSERT whose parameters hold a Python int: on an open
    connection the statement is prepared, then its parameters are bound, then
    it runs.  An int outside the 64 bits of sqlite raises [OverflowError]
    when it is bound, before the statement runs. *)
Definition int64 (z : Z) : bool :=
  Z.leb (- 2 ^ 63) z && Z.leb z (2 ^ 63 - 1).

Definition execute_insert (s : SqliteQueuesStorage) (bound : bool)
    (f : list Row -> list Row) : Py unit :=
  if conn_closed s then raise ProgrammingError
  else if bound then execute_dml s f
  else
    d ← gets database;
    match d with
    | Some _ => raise OverflowError
    | None => raise OperationalError
    end.

(** [conn.commit()]. *)
Definition conn_commit (s : SqliteQueuesStorage) : Py unit := sqlite_call s.

(** What a column REAL keeps of a Python float: NaN is stored as NULL, and
    a zero of either sign as 0.0; every other float is kept as it is.
    [None] is stored as NULL. *)
Definition sqlite_real (t : float) : option float :=
  if PrimFloat.is_nan t then None
  else if PrimFloat.is_zero t then Some 0%float
  else Some t.

Definition stored_ttl (t : option float) : option float :=
  match t with
  | Some t => sqlite_real t
  | None => None
  end.

(** The statements of the module, as functions on the table. *)
Definition sql_insert (r : Row) (rows : list Row) : list Row := rows ++ [r].
Definition sql_delete_uuid (u : string) (rows : list Row) : list Row :=
  List.filter (fun r => negb (String.eqb (r_uuid r) u)) rows.
Definition with_ttl (t : option float) (r : Row) : Row :=
  Build_Row (r_queue_name r) (r_uuid r) (r_data r) t (r_flags r).
Definition sql_update_ttl (t : option float) (u : string) (rows : list Row) : list Row :=
  List.map (fun r => if String.eqb (r_uuid r) u then with_ttl t r else r) rows.
Definition sql_where_queue_name (n : string) (rows : list Row) : list Row :=
  List.filter (fun r => String.eqb (r_queue_name r) n) rows.
(** The queue names of the table, once each. *)
Fixpoint group_names (rows : list Row) : list string :=
  match rows with
  | [] => []
  | r :: rows' =>
      r_queue_name r ::
      List.filter (fun n => negb (String.eqb n (r_queue_name r))) (group_names rows')
  end.

Fixpoint insert_sorted (n : string) (l : list string) : list string :=
  match l with
  | [] => [n]
  | m :: l' =>
      match String.compare n m with
      | Gt => m :: insert_sorted n l'
      | _ => n :: m :: l'
      end
  end.

(** GROUP BY queue_name: one name per group.  sqlite groups by sorting, so
    the names come in the order of their bytes. *)
Definition sql_group_names (rows : list Row) : list string :=
  foldr insert_sorted [] (group_names rows).

(** ** class SqliteQueuesStorage *)

(** [prepare_format]: CREATE TABLE items, then commit. *)
Definition SqliteQueuesStorage_prepare_format (s : SqliteQueuesStorage) : Py unit :=
  sqlite_call s ;;
  modify (set_database (Some [])) ;;
  conn_commit s.

(** [test_format]: count the tables named items in sqlite_master; when the
    count is not 1, [prepare_format]. *)
Definition SqliteQueuesStorage_test_format (s : SqliteQueuesStorage) : Py unit :=
  sqlite_call s ;;
  d ← gets database;
  match d with
  | Some _ => mret tt
  | None => SqliteQueuesStorage_prepare_format s
  end.

(** [sweep]: VACUUM, then commit. *)
Definition SqliteQueuesStorage_sweep (s : SqliteQueuesStorage) : Py unit :=
  sqlite_call s ;;
  conn_commit s.

(** [__init__]: connect, take a cursor, [test_format], [sweep]. *)
Definition SqliteQueuesStorage___init__ : Py SqliteQueuesStorage :=
  let s := mkStorage false in
  SqliteQueuesStorage_test_format s ;;
  SqliteQueuesStorage_sweep s ;;
  mret s.

(** [close]: close the cursor and the connection.  [crs.close()] raises
    [ProgrammingError] when the connection is closed already. *)
Definition SqliteQueuesStorage_close (s : SqliteQueuesStorage)
    : Py SqliteQueuesStorage :=
  if conn_closed s then raise ProgrammingError
  else mret (mkStorage true).

(** [get_queues]: SELECT queue_name FROM items GROUP BY queue_name. *)
Definition SqliteQueuesStorage_get_queues (s : SqliteQueuesStorage) : Py (list string) :=
  execute_select s sql_group_names.

(** [get_items]: SELECT uuid, data, ttl, flags FROM items WHERE
    queue_name = ?, and one new [Item] per record fetched. *)
Fixpoint new_items (rows : list Row) : Py (list addr) :=
  match rows with
  | [] => mret []
  | r :: rows' =>
      a ← new_item (Build_Item (r_uuid r) (r_data r) (r_ttl r) (r_flags r));
      l ← new_items rows';
      mret (a :: l)
  end.

Definition SqliteQueuesStorage_get_items (s : SqliteQueuesStorage)
    (queue_name : string) : Py (list addr) :=
  res ← execute_select s (sql_where_queue_name queue_name);
  new_items res.

(** [push]: INSERT INTO items of (queue_name, item.uuid, item.data,
    item.ttl, item.flags), then commit. *)
Definition SqliteQueuesStorage_push (s : SqliteQueuesStorage)
    (queue_name : string) (item : addr) : Py unit :=
  it ← get_item item;
  execute_insert s (int64 (flags it))
    (sql_insert (Build_Row queue_name (uuid it) (data it)
                   (stored_ttl (ttl it)) (flags it))) ;;
  conn_commit s.

(** [delete_items]: for each element of the list, DELETE FROM items WHERE
    uuid = item.uuid; one commit at the end. *)
Definition SqliteQueuesStorage_delete_items (s : SqliteQueuesStorage)
    (l : list pyobj) : Py unit :=
  for_each l (fun item =>
    u ← attr_uuid item;
    execute_dml s (sql_delete_uuid u)) ;;
  conn_commit s.

(** [update_items_ttl]: for each item, UPDATE items SET ttl = item.ttl
    WHERE uuid = item.uuid; one commit at the end. *)
Definition SqliteQueuesStorage_update_items_ttl (s : SqliteQueuesStorage)
    (l : list addr) : Py unit :=
  for_each l (fun item =>
    it ← get_item item;
    execute_dml s (sql_update_ttl (stored_ttl (ttl it)) (uuid it))) ;;
  conn_commit s.

(** ** class Queue *)

(** [self.manager.storage] followed by an attribute: [None] has none. *)
Definition manager_storage : Py SqliteQueuesStorage :=
  m ← gets manager;
  match storage m with
  | Some s => mret s
  | None => raise AttributeError
  end.

(** [self.queue[:] = self.manager.storage.get_items(self.name)]. *)
Definition Queue_load_persistent_data (self : addr) : Py unit :=
  s ← manager_storage;
  q ← get_queue_obj self;
  l ← SqliteQueuesStorage_get_items s (name q);
  update_queue_obj self (set_queue l).

(** [self.last_disconnect_absolute = time.time()]. *)
Definition Queue_disconnect (self : addr) : Py unit :=
  t ← time_time;
  _ ← get_queue_obj self;
  update_queue_obj self (set_last_disconnect_absolute (Some t)).

(** [__init__]: an empty list, no disconnect time; then
    [load_persistent_data] and [disconnect]. *)
Definition Queue___init__ (queue_name : string) : Py addr :=
  self ← new_queue_obj (mkQueue queue_name [] None);
  Queue_load_persistent_data self ;;
  Queue_disconnect self ;;
  mret self.

(** The loop of [connect]: [item.ttl -= diff] on the object itself (a
    [TypeError] when [item.ttl] is [None]), then the item goes to
    [fresh_queue] (and, persistent, to [storage_update_ttls]) when
    [item.ttl >= 0], else, persistent, to [storage_to_delete]. *)
Fixpoint connect_loop (diff : float) (l : list addr)
    (fresh_queue storage_update_ttls storage_to_delete : list addr)
    : Py (list addr * list addr * list addr) :=
  match l with
  | [] => mret (fresh_queue, storage_update_ttls, storage_to_delete)
  | item :: l' =>
      it ← get_item item;
      match ttl it with
      | None => raise TypeError
      | Some t =>
          let it' := set_ttl (Some (PrimFloat.sub t diff)) it in
          modify (set_items (<[item := it']>)) ;;
          if alive it' then
            connect_loop diff l' (fresh_queue ++ [item])
              (if persistent it' then storage_update_ttls ++ [item]
               else storage_update_ttls)
              storage_to_delete
          else
            connect_loop diff l' fresh_queue storage_update_ttls
              (if persistent it' then storage_to_delete ++ [item]
               else storage_to_delete)
      end
  end.

(** [connect]: [diff = time.time() - self.last_disconnect_absolute], the
    loop, [update_items_ttl], [delete_items], and then
    [self.queue[:] = fresh_queue]. *)
Definition Queue_connect (self : addr) : Py unit :=
  now ← time_time;
  q ← get_queue_obj self;
  match last_disconnect_absolute q with
  | None => raise TypeError
  | Some t0 =>
      let diff := PrimFloat.sub now t0 in
      '(fresh_queue, storage_update_ttls, storage_to_delete) ←
        connect_loop diff (queue q) [] [] [];
      s ← manager_storage;
      SqliteQueuesStorage_update_items_ttl s storage_update_ttls ;;
      s ← manager_storage;
      SqliteQueuesStorage_delete_items s (PyItem <$> storage_to_delete) ;;
      update_queue_obj self (set_queue fresh_queue)
  end.

(** [push]: append to the list, then [storage.push] when the item is
    persistent. *)
Definition Queue_push (self : addr) (item : addr) : Py unit :=
  q ← get_queue_obj self;
  update_queue_obj self (set_queue (queue q ++ [item])) ;;
  it ← get_item item;
  if persistent it then
    s ← manager_storage;
    SqliteQueuesStorage_push s (name q) item
  else mret tt.

(** [get]: the first item, or [None]; no ttl is tested. *)
Definition Queue_get (self : addr) : Py (option addr) :=
  q ← get_queue_obj self;
  match queue q with
  | item :: _ => mret (Some item)
  | [] => mret None
  end.

(** [pop]: nothing on an empty list; else [self.queue.pop(0)], then
    [storage.delete_items([item.uuid])] when the item is persistent. *)
Definition Queue_pop (self : addr) : Py unit :=
  q ← get_queue_obj self;
  match queue q with
  | [] => mret tt
  | item :: l =>
      update_queue_obj self (set_queue l) ;;
      it ← get_item item;
      if persistent it then
        s ← manager_storage;
        SqliteQueuesStorage_delete_items s [PyStr (uuid it)]
      else mret tt
  end.

(** [__len__], which also decides [not queue]. *)
Definition Queue___len__ (self : addr) : Py nat :=
  q ← get_queue_obj self;
  mret (length (queue q)).

(** ** class QueuesManager *)

(** The dictionary [queues]: lookup, item assignment, [del]. *)
Fixpoint dict_get (k : string) (d : list (string * addr)) : option addr :=
  match d with
  | [] => None
  | (k', v) :: d' => if String.eqb k' k then Some v else dict_get k d'
  end.
Fixpoint dict_set (k : string) (v : addr) (d : list (string * addr))
    : list (string * addr) :=
  match d with
  | [] => [(k, v)]
  | (k', v') :: d' =>
      if String.eqb k' k then (k', v) :: d' else (k', v') :: dict_set k v d'
  end.
Definition dict_del (k : string) (d : list (string * addr)) : list (string * addr) :=
  List.filter (fun kv => negb (String.eqb (fst kv) k)) d.

Definition set_queues (f : list (string * addr) -> list (string * addr))
    (m : QueuesManager) : QueuesManager :=
  mkManager (storage m) (f (queues m)).
Definition set_storage (s : option SqliteQueuesStorage)
    (m : QueuesManager) : QueuesManager :=
  mkManager s (queues m).

(** [get_queue]: the registered queue, or a new [Queue] that is then
    registered. *)
Definition QueuesManager_get_queue (queue_name : string) : Py addr :=
  m ← gets manager;
  match dict_get queue_name (queues m) with
  | Some q => mret q
  | None =>
      q ← Queue___init__ queue_name;
      modify (set_manager (set_queues (dict_set queue_name q))) ;;
      mret q
  end.

(** [load_from_storage]: [get_queue] for every name of [get_queues]. *)
Definition QueuesManager_load_from_storage : Py unit :=
  s ← manager_storage;
  names ← SqliteQueuesStorage_get_queues s;
  for_each names (fun queue_name =>
    _ ← QueuesManager_get_queue queue_name; mret tt).

(** [__init__]: keep the storage, start with no queue, then
    [load_from_storage]. *)
Definition QueuesManager___init__ (s : SqliteQueuesStorage) : Py unit :=
  modify (set_manager (fun _ => mkManager (Some s) [])) ;;
  QueuesManager_load_from_storage.

(** [for queue_name, queue in self.queues.items()]: the iterator of the view
    keeps the size the dictionary had when the loop began ([di_used]) and its
    position ([di_pos]); every step first compares the size, and raises
    [RuntimeError] when it changed.  [remaining] is [di_used - di_pos]. *)
Fixpoint cleanup_loop (remaining di_used di_pos : nat) : Py unit :=
  d ← gets (fun w => queues (manager w));
  if negb (Nat.eqb (length d) di_used) then raise RuntimeError
  else
    match remaining with
    | O => mret tt
    | S remaining' =>
        match d !! di_pos with
        | None => mret tt
        | Some (queue_name, q) =>
            n ← Queue___len__ q;
            (if Nat.eqb n 0
             then modify (set_manager (set_queues (dict_del queue_name)))
             else mret tt) ;;
            cleanup_loop remaining' di_used (S di_pos)
        end
    end.

(** [cleanup]: the loop over [self.queues.items()]. *)
Definition QueuesManager_cleanup : Py unit :=
  d ← gets (fun w => queues (manager w));
  cleanup_loop (length d) (length d) 0.

(** [close]: [self.queues.clear()], [self.storage.close()] on the storage
    object the manager holds, [self.storage = None]. *)
Definition QueuesManager_close : Py unit :=
  modify (set_manager (set_queues (fun _ => []))) ;;
  s ← manager_storage;
  s' ← SqliteQueuesStorage_close s;
  modify (set_manager (set_storage (Some s'))) ;;
  modify (set_manager (set_storage None)).

(** ** Process start and what surrounds the process *)

(** A process that starts on the file [db] at time [t]: no object yet. *)
Definition boot (db : option (list Row)) (fs : list bool) (t : float) : World :=
  mkWorld [] [] (mkManager None []) db fs t.

(** [QueuesManager(SqliteQueuesStorage(filename))]. *)
Definition start_manager : Py unit :=
  s ← SqliteQueuesStorage___init__;
  QueuesManager___init__ s.

(** Time passes. *)
Definition sleep_until (t : float) : Py unit := modify (set_clock t).

(** * Vocabulary of the properties

    What the statements below are written in: the conditions they assume,
    the batch calls in the words of the specification, the callers that
    drive a queue, and the worlds they are tried on. *)

(** A storage is [sound] in a world when its connection is open, the table
    exists and no fault is to come. *)
Definition sound (s : SqliteQueuesStorage) (rows : list Row) (w : World) : Prop :=
  conn_closed s = false /\ database w = Some rows /\ faults w = [].

(** The objects at the addresses of a list. *)
Definition objects_at (h : list Item) (l : list addr) (its : list Item) : Prop :=
  Forall2 (fun a it => h !! a = Some it) l its.

(** The loops of UPDATE and DELETE statements. *)
Definition run_updates (its : list Item) (rows : list Row) : list Row :=
  foldl (fun rows it => sql_update_ttl (stored_ttl (ttl it)) (uuid it) rows) rows its.
Definition run_deletes (us : list string) (rows : list Row) : list Row :=
  foldl (fun rows u => sql_delete_uuid u rows) rows us.

(** [item.ttl -= diff] on one object, and on the objects of a list in turn
    (an object listed twice is aged twice). *)
Definition aged (diff : float) (it : Item) : Item :=
  set_ttl (match ttl it with
           | Some t => Some (PrimFloat.sub t diff)
           | None => None
           end) it.

Fixpoint age (diff : float) (l : list addr) (h : list Item) : list Item :=
  match l with
  | [] => h
  | a :: l' => age diff l' (alter (aged diff) a h)
  end.

(** [item.ttl >= 0] and [item.flags & FLAG_PERSISTENT] of the object at an
    address. *)
Definition survives (h : list Item) (a : addr) : bool :=
  match h !! a with Some it => alive it | None => false end.
Definition persists (h : list Item) (a : addr) : bool :=
  match h !! a with Some it => persistent it | None => false end.

(** Update the ttl of the listed items: a record whose uuid is the uuid of a
    listed item gets the ttl of that item as the column keeps it (of the
    last one listed, should several carry the uuid); the other records
    stay. *)
Definition batch_update_ttl (its : list Item) (rows : list Row) : list Row :=
  List.map (fun r =>
    match List.find (fun it => String.eqb (r_uuid r) (uuid it)) (rev its) with
    | Some it => with_ttl (stored_ttl (ttl it)) r
    | None => r
    end) rows.

(** Delete the listed items: the records whose uuid is the uuid of a listed
    item go, the others stay in their order. *)
Definition batch_delete (its : list Item) (rows : list Row) : list Row :=
  List.filter (fun r =>
    negb (existsb (fun it => String.eqb (r_uuid r) (uuid it)) its)) rows.

(** The objects at the addresses of a list, as a list. *)
Fixpoint deref (h : list Item) (l : list addr) : list Item :=
  match l with
  | [] => []
  | a :: l' =>
      match h !! a with
      | Some it => it :: deref h l'
      | None => deref h l'
      end
  end.

(** The addresses of a list that [connect] keeps, that it evicts, and those
    of persistent items. *)
Definition survivors (h : list Item) (l : list addr) : list addr :=
  List.filter (survives h) l.
Definition evicted (h : list Item) (l : list addr) : list addr :=
  List.filter (fun a => negb (survives h a)) l.
Definition persistent_of (h : list Item) (l : list addr) : list addr :=
  List.filter (persists h) l.

(** An item whose ttl is a float. *)
Definition float_ttl (it : Item) : Prop := is_Some (ttl it).

(** A queue object whose list holds each object once, all of them in the
    object store and with a float ttl. *)
Definition queue_wf (w : World) (q : Queue) : Prop :=
  NoDup (queue q) /\
  forall a, a ∈ queue q -> exists it, items w !! a = Some it /\ float_ttl it.

(** The world [connect] leaves when its calls on the storage succeed. *)
Definition connected (diff : float) (self : addr) (q : Queue)
    (rows : list Row) (w : World) : World :=
  let h' := age diff (queue q) (items w) in
  set_queue_objs (alter (set_queue (survivors h' (queue q))) self)
    (set_database
       (Some (batch_delete
                (deref h' (persistent_of h' (evicted h' (queue q))))
                (batch_update_ttl
                   (deref h' (persistent_of h' (survivors h' (queue q))))
                   rows)))
       (set_items (fun _ => h') w)).

(** A queue of three items at time 13, disconnected since time 10: a
    persistent item with ttl 5, an item with ttl 3 and a persistent item
    with ttl 1. *)
Definition three_items : World :=
  mkWorld
    [mkItem "a" "x" 5%float 1; mkItem "b" "y" 3%float 0; mkItem "c" "z" 1%float 1]
    [mkQueue "jobs" [0; 1; 2]%nat (Some 10%float)]
    (mkManager (Some (mkStorage false)) [("jobs", 0%nat)])
    (Some [mkRow "jobs" "a" "x" 5%float 1; mkRow "jobs" "c" "z" 1%float 1])
    []
    13%float.

(** A statement of the storage acts on the table and on the medium only:
    the objects, the manager and the clock are after it as before. *)
Definition same_objects (w w' : World) : Prop :=
  items w' = items w /\ queue_objs w' = queue_objs w /\
  manager w' = manager w /\ clock w' = clock w.

Definition storage_only {A : Type} (m : Py A) : Prop :=
  forall w, same_objects w (snd (m w)).

(** The two batch calls of [connect], one after the other. *)
Definition connect_storage_calls (upd del : list addr) : Py unit :=
  s ← manager_storage;
  SqliteQueuesStorage_update_items_ttl s upd ;;
  s ← manager_storage;
  SqliteQueuesStorage_delete_items s (PyItem <$> del).

(** A world in which the items a and n were aged since their records were
    written: a has ttl 2 and n a ttl NaN, the records hold 5 and 7. *)
Definition aged_a_and_nan : World :=
  mkWorld
    [mkItem "a" "x" 2%float 1; mkItem "n" "y" PrimFloat.nan 1]
    [mkQueue "jobs" [0; 1]%nat (Some 10%float)]
    (mkManager (Some (mkStorage false)) [("jobs", 0%nat)])
    (Some [mkRow "jobs" "a" "x" 5%float 1; mkRow "jobs" "n" "y" 7%float 1;
           mkRow "jobs" "c" "z" 1%float 1])
    []
    13%float.

(** The queue of three items on a medium whose coming calls fail as [fs]
    tells. *)
Definition three_items_on (fs : list bool) : World := set_faults fs three_items.

(** A first process pushes a persistent item whose ttl is NaN and closes
    the manager; a second process starts on the file and takes the queue. *)
Definition store_nan : Py unit :=
  start_manager ;;
  q ← QueuesManager_get_queue "jobs";
  a ← new_item (mkItem "n" "x" PrimFloat.nan FLAG_PERSISTENT);
  Queue_push q a ;;
  QueuesManager_close.

Definition reload_queue : Py addr :=
  start_manager ;;
  QueuesManager_get_queue "jobs".

(** The exceptions of a call on the storage: the two of sqlite3, and the
    [AttributeError] of a manager that holds no storage. *)
Definition storage_error (e : exn) : Prop :=
  e = ProgrammingError \/ e = OperationalError \/ e = AttributeError.

(** Two calls of [disconnect], at [t1] and at [t2], and [connect] at [t3]. *)
Definition disconnect_twice_connect (self : addr) (t1 t2 t3 : float) : Py unit :=
  sleep_until t1 ;; Queue_disconnect self ;;
  sleep_until t2 ;; Queue_disconnect self ;;
  sleep_until t3 ;; Queue_connect self.

(** The scenario of the specification: the queue "jobs" holds the one
    persistent item a, with its record in the storage. *)
Definition one_persistent : World :=
  mkWorld
    [mkItem "a" "x" 5%float FLAG_PERSISTENT]
    [mkQueue "jobs" [0%nat] (Some 0%float)]
    (mkManager (Some (mkStorage false)) [("jobs", 0%nat)])
    (Some [mkRow "jobs" "a" "x" 5%float FLAG_PERSISTENT])
    []
    0%float.

(** A caller pushes the items of a list in turn, then reads and pops [n]
    times, going on when a call raises. *)
Definition push_all (self : addr) (ps : list addr) : Py unit :=
  for_each ps (fun a => _ ← attempt (Queue_push self a); mret tt).

Fixpoint get_pop (self : addr) (n : nat) : Py (list (option addr)) :=
  match n with
  | O => mret []
  | S n' =>
      x ← Queue_get self;
      _ ← attempt (Queue_pop self);
      l ← get_pop self n';
      mret (x :: l)
  end.

(** Two persistent items and one that is not, pushed onto the empty queue
    "jobs". *)
Definition empty_jobs : World :=
  mkWorld
    [mkItem "a" "x" 5%float 1; mkItem "b" "y" 3%float 0; mkItem "c" "z" 1%float 1]
    [mkQueue "jobs" [] (Some 0%float)]
    (mkManager (Some (mkStorage false)) [("jobs", 0%nat)])
    (Some [])
    []
    0%float.

(** [not queue] for an entry of the dictionary. *)
Definition is_empty (w : World) (kv : string * addr) : bool :=
  match queue_objs w !! kv.2 with
  | Some q => Nat.eqb (length (queue q)) 0
  | None => false
  end.

(** A manager that holds the empty queue A, the queue B of three items and
    the empty queue C; and the manager of the specification's example,
    which holds A and B. *)
Definition manager_A_B_C : World :=
  mkWorld
    [mkItem "a" "x" 5%float 0; mkItem "b" "y" 3%float 0; mkItem "c" "z" 1%float 0]
    [mkQueue "A" [] (Some 0%float); mkQueue "B" [0; 1; 2]%nat (Some 0%float);
     mkQueue "C" [] (Some 0%float)]
    (mkManager (Some (mkStorage false)) [("A", 0%nat); ("B", 1%nat); ("C", 2%nat)])
    (Some [])
    []
    0%float.

Definition manager_A_B : World :=
  set_manager (set_queues (fun _ => [("A", 0%nat); ("B", 1%nat)])) manager_A_B_C.

(** A caller asks for the queues of a list of names in turn, going on when
    a call raises. *)
Fixpoint get_queue_each (ns : list string) : Py (list (outcome addr)) :=
  match ns with
  | [] => mret []
  | n :: ns' =>
      o ← attempt (QueuesManager_get_queue n);
      l ← get_queue_each ns';
      mret (o :: l)
  end.

(** No two records share a uuid. *)
Definition uuid_unique (rows : list Row) : Prop := NoDup (r_uuid <$> rows).

(** The world of the one persistent item a, and a second persistent item b
    that is not pushed yet. *)
Definition one_persistent_and_b : World :=
  set_items (fun h => h ++ [mkItem "b" "y" 3%float FLAG_PERSISTENT]) one_persistent.

(** The calls a holder of a queue makes on it, and time that passes. *)
Inductive call : Type :=
  | CPush (a : addr)
  | CGet
  | CPop
  | CConnect
  | CDisconnect
  | CSleep (t : float).

Definition run_call (self : addr) (c : call) : Py unit :=
  match c with
  | CPush a => Queue_push self a
  | CGet => _ ← Queue_get self; mret tt
  | CPop => Queue_pop self
  | CConnect => Queue_connect self
  | CDisconnect => Queue_disconnect self
  | CSleep t => sleep_until t
  end.

(** The calls of a list in turn, going on when one raises. *)
Definition run_calls (self : addr) (cs : list call) : Py unit :=
  for_each cs (fun c => _ ← attempt (run_call self c); mret tt).

(** The items that the calls push, and those pushed since the last
    [connect], given the ones pushed since the last [connect] before. *)
Fixpoint pushed (cs : list call) : list addr :=
  match cs with
  | [] => []
  | CPush a :: cs' => a :: pushed cs'
  | _ :: cs' => pushed cs'
  end.

Definition recent_step (c : call) (recent : list addr) : list addr :=
  match c with
  | CPush a => recent ++ [a]
  | CConnect => []
  | _ => recent
  end.

Fixpoint pushed_since_connect (cs : list call) (recent : list addr) : list addr :=
  match cs with
  | [] => recent
  | c :: cs' => pushed_since_connect cs' (recent_step c recent)
  end.

(** What holds between the calls: the storage is sound, the sequence and
    the items still to push are distinct objects of the store with a float
    ttl, and an item of the sequence has a ttl [>= 0] unless it was pushed
    since the last [connect]. *)
Definition readable (self : addr) (recent pending : list addr) (w : World) : Prop :=
  exists q s rows,
    queue_objs w !! self = Some q /\
    is_Some (last_disconnect_absolute q) /\
    storage (manager w) = Some s /\
    sound s rows w /\
    NoDup (queue q ++ pending) /\
    (forall a, a ∈ queue q ++ pending ->
               exists it, items w !! a = Some it /\ float_ttl it) /\
    (forall a it, a ∈ queue q -> items w !! a = Some it ->
                  alive it = true \/ a ∈ recent).

(** Three pushes, a disconnected interval of 3, [connect], [pop]. *)
Definition push_wait_connect_pop : list call :=
  [CPush 0%nat; CPush 1%nat; CPush 2%nat; CGet; CDisconnect;
   CSleep 3%float; CConnect; CPop].



(** The [Item] that [get_items] builds from a record. *)
Definition item_of_row (r : Row) : Item :=
  Build_Item (r_uuid r) (r_data r) (r_ttl r) (r_flags r).

(** The world [Queue(queue_name, manager)] leaves on a sound storage: the
    items of the queue's records are new objects, the new queue object holds
    them in the order of the table, disconnected since now. *)
Definition with_loaded_queue (n : string) (rows : list Row) (w : World) : World :=
  set_queue_objs
    (fun _ => queue_objs w ++
       [mkQueue n (seq (length (items w)) (length (sql_where_queue_name n rows)))
          (Some (clock w))])
    (set_items
       (fun _ => items w ++ (item_of_row <$> sql_where_queue_name n rows)) w).

(** Every registered queue is as it was loaded at time [t] from the table
    [rows]: its sequence is made of distinct objects, the items of its
    records in the order of the table. *)
Definition loaded (rows : list Row) (t : float) (w : World) : Prop :=
  forall n qa, dict_get n (queues (manager w)) = Some qa ->
    exists l,
      queue_objs w !! qa = Some (mkQueue n l (Some t)) /\
      NoDup l /\
      objects_at (items w) l (item_of_row <$> sql_where_queue_name n rows).

(** A first process pushes the persistent item a with ttl 10, disconnects
    the queue at time 50 and closes the manager at time 100; a second
    process starts on the file and reads the queue. *)
Definition first_process : Py unit :=
  start_manager ;;
  q ← QueuesManager_get_queue "jobs";
  a ← new_item (mkItem "a" "x" 10%float FLAG_PERSISTENT);
  Queue_push q a ;;
  sleep_until 50%float ;;
  Queue_disconnect q ;;
  sleep_until 100%float ;;
  QueuesManager_close.

Definition second_process : Py (option addr) :=
  start_manager ;;
  q ← QueuesManager_get_queue "jobs";
  Queue_get q.


(** A statement that leaves every [Item] object as it is. *)
Definition keeps_items {A : Type} (m : Py A) : Prop :=
  forall w, items (snd (m w)) = items w.

(** No call of the list is [connect]. *)
Definition no_connect (cs : list call) : bool :=
  forallb (fun c => match c with CConnect => false | _ => true end) cs.

(** What a reader finds for a ttl that was written to the table: [None]
    for NaN and for [None], 0.0 for a zero of either sign, the ttl itself
    otherwise. *)
Definition as_stored (t : option float) : option float :=
  match t with
  | Some t =>
      if PrimFloat.is_nan t then None
      else if PrimFloat.is_zero t then Some 0%float
      else Some t
  | None => None
  end.

(** An int that fits the 64 bits of an sqlite integer. *)
Definition fits_64_bits (z : Z) : Prop := - 2 ^ 63 <= z <= 2 ^ 63 - 1.

(** An item as it is read back from the record that [push] inserted for
    it. *)
Definition reloaded (it : Item) : Item :=
  Build_Item (uuid it) (data it) (as_stored (ttl it)) (flags it).

(** The record that [push] inserts for an item of the queue [n]. *)
Definition row_of_item (n : string) (it : Item) : Row :=
  Build_Row n (uuid it) (data it) (stored_ttl (ttl it)) (flags it).


(** The empty queue "jobs" and items of all kinds to push: persistent or
    not, with a ttl NaN, with the ttl -0.0, with flags beyond 64 bits. *)
Definition pushes_of_all_kinds : World :=
  mkWorld
    [mkItem "a" "x" 5%float 1; mkItem "b" "y" 3%float 0;
     mkItem "n" "u" PrimFloat.nan 1; mkItem "z" "v" PrimFloat.neg_zero 1;
     mkItem "o" "w" 4%float (2 ^ 63 + 1); mkItem "c" "z" 1%float 1]
    [mkQueue "jobs" [] (Some 0%float)]
    (mkManager (Some (mkStorage false)) [("jobs", 0%nat)])
    (Some [])
    []
    0%float.

(** A statement that leaves the manager and the table as they are. *)
Definition keeps_registry {A : Type} (m : Py A) : Prop :=
  forall w, manager (snd (m w)) = manager w /\ database (snd (m w)) = database w.

(** * Properties *)

(** ** Sequencing *)

Lemma bind_ret {A B : Type} (m : Py A) (k : A -> Py B) w a w' :
  m w = (Ret a, w') -> (m ≫= k) w = k a w'.
Proof. intros H. unfold mbind, Py_bind. now rewrite H. Qed.

Lemma bind_raise {A B : Type} (m : Py A) (k : A -> Py B) w e w' :
  m w = (Raise e, w') -> (m ≫= k) w = (Raise e, w').
Proof. intros H. unfold mbind, Py_bind. now rewrite H. Qed.

Lemma bind_attempt {A B : Type} (m : Py A) (k : outcome A -> Py B) w o w' :
  m w = (o, w') -> (attempt m ≫= k) w = k o w'.
Proof. intros H. unfold mbind, Py_bind, attempt. now rewrite H. Qed.

Lemma get_item_ok a it w :
  items w !! a = Some it -> get_item a w = (Ret it, w).
Proof. intros H. unfold get_item. now rewrite H. Qed.

Lemma get_queue_obj_ok qa q w :
  queue_objs w !! qa = Some q -> get_queue_obj qa w = (Ret q, w).
Proof. intros H. unfold get_queue_obj. now rewrite H. Qed.

Lemma manager_storage_ok s w :
  storage (manager w) = Some s -> manager_storage w = (Ret s, w).
Proof. intros H. unfold manager_storage, gets, mbind, Py_bind. now rewrite H. Qed.

Lemma manager_storage_None w :
  storage (manager w) = None -> manager_storage w = (Raise AttributeError, w).
Proof. intros H. unfold manager_storage, gets, mbind, Py_bind. now rewrite H. Qed.

(** ** The storage when the medium is sound *)

Lemma sqlite_call_ok s rows w :
  sound s rows w -> sqlite_call s w = (Ret tt, w).
Proof.
  intros (Hc & _ & Hf). unfold sqlite_call. now rewrite Hc, Hf.
Qed.

Lemma execute_dml_ok s rows f w :
  sound s rows w ->
  execute_dml s f w = (Ret tt, set_database (Some (f rows)) w).
Proof.
  intros Hs. unfold execute_dml.
  rewrite (bind_ret _ _ _ _ _ (sqlite_call_ok _ _ _ Hs)).
  destruct Hs as (_ & Hd & _).
  unfold gets, mbind, Py_bind. now rewrite Hd.
Qed.

Lemma execute_select_ok {A : Type} s rows (f : list Row -> A) w :
  sound s rows w -> execute_select s f w = (Ret (f rows), w).
Proof.
  intros Hs. unfold execute_select.
  rewrite (bind_ret _ _ _ _ _ (sqlite_call_ok _ _ _ Hs)).
  destruct Hs as (_ & Hd & _).
  unfold gets, mbind, Py_bind. now rewrite Hd.
Qed.

Lemma sound_set_database s rows rows' w :
  sound s rows w -> sound s rows' (set_database (Some rows') w).
Proof. intros (Hc & _ & Hf). now split. Qed.

Lemma sound_set_items s rows f w :
  sound s rows w -> sound s rows (set_items f w).
Proof. intros (Hc & Hd & Hf). now split. Qed.

Lemma sound_set_queue_objs s rows f w :
  sound s rows w -> sound s rows (set_queue_objs f w).
Proof. intros (Hc & Hd & Hf). now split. Qed.

Lemma set_database_same rows w :
  database w = Some rows -> set_database (Some rows) w = w.
Proof. destruct w; simpl; intros ->; reflexivity. Qed.

Lemma update_loop_ok s its : forall l rows w,
  sound s rows w ->
  objects_at (items w) l its ->
  for_each l (fun item =>
    it ← get_item item;
    execute_dml s (sql_update_ttl (stored_ttl (ttl it)) (uuid it))) w
  = (Ret tt, set_database (Some (run_updates its rows)) w).
Proof.
  induction its as [|it its IH]; intros l rows w Hs Hl.
  - apply Forall2_nil_inv_r in Hl as ->. simpl.
    destruct Hs as (_ & Hd & _). now rewrite (set_database_same _ _ Hd).
  - apply Forall2_cons_inv_r in Hl as (a & l' & Ha & Hl' & ->). simpl.
    erewrite bind_ret; cycle 1.
    { erewrite bind_ret by (apply get_item_ok; eassumption).
      eapply execute_dml_ok; eassumption. }
    erewrite IH; [reflexivity | eapply sound_set_database; eassumption | exact Hl'].
Qed.

Lemma SqliteQueuesStorage_update_items_ttl_ok s rows l its w :
  sound s rows w ->
  objects_at (items w) l its ->
  SqliteQueuesStorage_update_items_ttl s l w
  = (Ret tt, set_database (Some (run_updates its rows)) w).
Proof.
  intros Hs Hl. unfold SqliteQueuesStorage_update_items_ttl.
  erewrite bind_ret by (eapply update_loop_ok; eassumption).
  unfold conn_commit. eapply sqlite_call_ok, sound_set_database, Hs.
Qed.

Lemma delete_loop_ok s its : forall l rows w,
  sound s rows w ->
  objects_at (items w) l its ->
  for_each (PyItem <$> l) (fun item =>
    u ← attr_uuid item;
    execute_dml s (sql_delete_uuid u)) w
  = (Ret tt, set_database (Some (run_deletes (uuid <$> its) rows)) w).
Proof.
  induction its as [|it its IH]; intros l rows w Hs Hl.
  - apply Forall2_nil_inv_r in Hl as ->. simpl.
    destruct Hs as (_ & Hd & _). now rewrite (set_database_same _ _ Hd).
  - apply Forall2_cons_inv_r in Hl as (a & l' & Ha & Hl' & ->). simpl.
    erewrite bind_ret; cycle 1.
    { erewrite bind_ret; cycle 1.
      { unfold attr_uuid. erewrite bind_ret by (apply get_item_ok; eassumption).
        reflexivity. }
      eapply execute_dml_ok; eassumption. }
    erewrite IH; [reflexivity | eapply sound_set_database; eassumption | exact Hl'].
Qed.

Lemma SqliteQueuesStorage_delete_items_ok s rows l its w :
  sound s rows w ->
  objects_at (items w) l its ->
  SqliteQueuesStorage_delete_items s (PyItem <$> l) w
  = (Ret tt, set_database (Some (run_deletes (uuid <$> its) rows)) w).
Proof.
  intros Hs Hl. unfold SqliteQueuesStorage_delete_items.
  erewrite bind_ret by (eapply delete_loop_ok; eassumption).
  unfold conn_commit. eapply sqlite_call_ok, sound_set_database, Hs.
Qed.

(** ** The loop of connect *)

Lemma insert_alter_at {A : Type} (f : A -> A) : forall (h : list A) a x,
  h !! a = Some x -> <[a := f x]> h = alter f a h.
Proof.
  induction h as [|y h IH]; intros [|a] x Hx; simpl in *; try discriminate.
  - now inversion Hx.
  - f_equal. now apply IH.
Qed.

Lemma age_length diff : forall l h, length (age diff l h) = length h.
Proof.
  induction l as [|a l IH]; intros h; simpl; [reflexivity|].
  now rewrite IH, length_alter.
Qed.

Lemma age_lookup_notin diff a : forall l h,
  a ∉ l -> age diff l h !! a = h !! a.
Proof.
  induction l as [|b l IH]; intros h Ha; simpl; [reflexivity|].
  apply not_elem_of_cons in Ha as [Hab Ha].
  rewrite IH by exact Ha. now apply list_lookup_alter_ne.
Qed.

Lemma age_lookup_in diff a : forall l h,
  NoDup l -> a ∈ l -> age diff l h !! a = aged diff <$> h !! a.
Proof.
  induction l as [|b l IH]; intros h Hnd Ha; simpl.
  - now apply elem_of_nil in Ha.
  - apply NoDup_cons in Hnd as [Hb Hnd].
    apply elem_of_cons in Ha as [->|Ha].
    + rewrite age_lookup_notin by exact Hb. apply list_lookup_alter_eq.
    + rewrite IH by assumption.
      rewrite list_lookup_alter_ne; [reflexivity|]. intros ->. now apply Hb.
Qed.

Lemma aged_float diff it t :
  ttl it = Some t ->
  aged diff it = mkItem (uuid it) (data it) (PrimFloat.sub t diff) (flags it).
Proof. intros H. unfold aged. now rewrite H. Qed.

Lemma connect_loop_ok diff : forall l w fresh upd del,
  NoDup l ->
  (forall a, a ∈ l -> exists it, items w !! a = Some it /\ float_ttl it) ->
  let h' := age diff l (items w) in
  connect_loop diff l fresh upd del w =
  (Ret (fresh ++ List.filter (survives h') l,
        upd ++ List.filter (fun a => survives h' a && persists h' a) l,
        del ++ List.filter (fun a => negb (survives h' a) && persists h' a) l),
   set_items (fun _ => h') w).
Proof.
  induction l as [|a l IH]; intros w fresh upd del Hnd Hv h'.
  - subst h'. simpl. rewrite !app_nil_r. now destruct w.
  - apply NoDup_cons in Hnd as [Ha Hnd].
    destruct (Hv a) as (it & Hit & [t Ht]); [left|].
    assert (Hh1 : <[a := aged diff it]> (items w) = alter (aged diff) a (items w))
      by now apply insert_alter_at.
    assert (Hv1 : forall b, b ∈ l ->
              exists it', items (set_items (<[a := aged diff it]>) w) !! b = Some it' /\
                          float_ttl it').
    { intros b Hb. destruct (Hv b) as (it' & Hit' & Hf'); [now right|].
      exists it'. split; [|exact Hf'].
      cbn [items set_items]. rewrite list_lookup_insert_ne; [exact Hit'|].
      intros ->. now apply Ha. }
    assert (Hat : h' !! a = Some (aged diff it)).
    { subst h'. cbn [age]. rewrite age_lookup_notin by exact Ha.
      now rewrite list_lookup_alter_eq, Hit. }
    assert (Hh' : age diff l (items (set_items (<[a := aged diff it]>) w)) = h').
    { subst h'. cbn [age]. now rewrite <- Hh1. }
    cbn [connect_loop].
    rewrite (bind_ret _ _ _ _ _ (get_item_ok _ _ _ Hit)).
    rewrite Ht.
    erewrite bind_ret by reflexivity.
    replace (set_ttl (Some (PrimFloat.sub t diff)) it) with (aged diff it)
      by (unfold aged; now rewrite Ht).
    assert (Hsa : survives h' a = alive (aged diff it))
      by (unfold survives; now rewrite Hat).
    assert (Hpa : persists h' a = persistent (aged diff it))
      by (unfold persists; now rewrite Hat).
    cbn [List.filter]. rewrite Hsa, Hpa.
    destruct (alive (aged diff it)) eqn:Hal; cbn [negb andb];
      destruct (persistent (aged diff it)) eqn:Hp;
      rewrite (IH _ _ _ _ Hnd Hv1), Hh';
      rewrite <- ?app_assoc; reflexivity.
Qed.

(** ** The batch calls in the words of the specification *)

Lemma filter_filter {A : Type} (p q : A -> bool) (l : list A) :
  List.filter p (List.filter q l) = List.filter (fun x => q x && p x) l.
Proof.
  induction l as [|x l IH]; simpl; [reflexivity|].
  destruct (q x); simpl; [destruct (p x)|]; now rewrite IH.
Qed.

Lemma run_updates_batch (its : list Item) (rows : list Row) :
  run_updates its rows = batch_update_ttl its rows.
Proof.
  induction its as [|x its IH] using rev_ind.
  - unfold batch_update_ttl. simpl. now rewrite map_id.
  - unfold run_updates in *. rewrite foldl_app. cbn [foldl]. rewrite IH.
    unfold sql_update_ttl, batch_update_ttl.
    rewrite map_map. apply map_ext. intros r.
    rewrite rev_unit. cbn [List.find].
    destruct (List.find _ (rev its)) as [it|]; cbn [r_uuid with_ttl];
      destruct (String.eqb (r_uuid r) (uuid x)); reflexivity.
Qed.

Lemma run_deletes_batch (its : list Item) : forall rows,
  run_deletes (uuid <$> its) rows = batch_delete its rows.
Proof.
  induction its as [|x its IH]; intros rows.
  - unfold batch_delete. simpl. induction rows; simpl; congruence.
  - unfold run_deletes in *. cbn [fmap list_fmap foldl]. rewrite IH.
    unfold batch_delete, sql_delete_uuid. rewrite filter_filter.
    apply filter_ext. intros r. cbn [existsb].
    now rewrite negb_orb.
Qed.

Lemma queue_wf_valid w q :
  queue_wf w q -> forall a, a ∈ queue q -> is_Some (items w !! a).
Proof. intros [_ Hv] a Ha. destruct (Hv a Ha) as (it & -> & _). now eexists. Qed.

Lemma objects_at_deref (h : list Item) : forall l,
  (forall a, a ∈ l -> is_Some (h !! a)) -> objects_at h l (deref h l).
Proof.
  induction l as [|a l IH]; intros Hv; simpl; [constructor|].
  destruct (Hv a) as [it Hit]; [left|]. rewrite Hit.
  constructor; [assumption|]. apply IH. intros b Hb. apply Hv. now right.
Qed.

(** ** Comparison with zero *)

Lemma below_zero_not_alive (it : Item) (t : float) :
  ttl it = Some t -> PrimFloat.ltb t 0%float = true -> alive it = false.
Proof.
  unfold alive. intros ->. rewrite ltb_spec, leb_spec.
  replace (Prim2SF 0%float) with (S754_zero false) by reflexivity.
  unfold SFltb, SFleb.
  destruct (Prim2SF t) as [[|]|[|]| |[|] m e]; simpl;
    intros H; try discriminate H; reflexivity.
Qed.

Lemma above_zero_not_nan (t : float) :
  PrimFloat.leb 0%float t = true -> PrimFloat.is_nan t = false.
Proof.
  unfold PrimFloat.is_nan. intros H. apply negb_false_iff.
  rewrite FloatAxioms.eqb_spec. rewrite leb_spec in H.
  replace (Prim2SF 0%float) with (S754_zero false) in H by reflexivity.
  unfold SFleb, SFeqb, SFcompare in *.
  destruct (Prim2SF t) as [[|]|[|]| |[|] m e]; cbn in *;
    try discriminate H; try reflexivity.
  rewrite Z.compare_refl, Pos.compare_cont_refl. reflexivity.
Qed.

Lemma zero_alive (it : Item) : ttl it = Some 0%float -> alive it = true.
Proof. unfold alive. now intros ->. Qed.

(** ** connect, when the storage is sound *)

Lemma filter_valid (h h' : list Item) (p : addr -> bool) (l : list addr) :
  length h' = length h ->
  (forall a, a ∈ l -> is_Some (h !! a)) ->
  forall a, a ∈ List.filter p l -> is_Some (h' !! a).
Proof.
  intros Hlen Hv a Ha. apply list_elem_of_In, filter_In in Ha as [Ha _].
  apply lookup_lt_is_Some. rewrite Hlen. apply lookup_lt_is_Some, Hv.
  now apply list_elem_of_In.
Qed.

Lemma Queue_connect_ok w self q s rows t0 :
  queue_objs w !! self = Some q ->
  last_disconnect_absolute q = Some t0 ->
  storage (manager w) = Some s ->
  sound s rows w ->
  queue_wf w q ->
  Queue_connect self w =
  (Ret tt, connected (PrimFloat.sub (clock w) t0) self q rows w).
Proof.
  intros Hq Ht Hst Hs Hwf.
  pose proof (queue_wf_valid _ _ Hwf) as Hv. destruct Hwf as [Hnd Hfl].
  set (diff := PrimFloat.sub (clock w) t0).
  set (h' := age diff (queue q) (items w)).
  unfold Queue_connect, time_time.
  erewrite bind_ret by reflexivity.
  rewrite (bind_ret _ _ _ _ _ (get_queue_obj_ok _ _ _ Hq)).
  rewrite Ht. fold diff.
  rewrite (bind_ret _ _ _ _ _ (connect_loop_ok diff _ _ [] [] [] Hnd Hfl)).
  fold h'. cbn [app].
  assert (Hlen : length h' = length (items w)) by apply age_length.
  erewrite bind_ret by (apply manager_storage_ok; exact Hst).
  erewrite bind_ret; cycle 1.
  { eapply SqliteQueuesStorage_update_items_ttl_ok.
    - apply sound_set_items, Hs.
    - apply objects_at_deref. eapply filter_valid; eassumption. }
  erewrite bind_ret by (apply manager_storage_ok; exact Hst).
  erewrite bind_ret; cycle 1.
  { eapply SqliteQueuesStorage_delete_items_ok.
    - eapply sound_set_database, sound_set_items, Hs.
    - apply objects_at_deref. eapply filter_valid; eassumption. }
  unfold update_queue_obj, modify, connected. fold diff h'.
  rewrite run_updates_batch, run_deletes_batch.
  unfold persistent_of, survivors, evicted. rewrite !filter_filter.
  reflexivity.
Qed.

Lemma connected_items diff self q rows w :
  items (connected diff self q rows w) = age diff (queue q) (items w).
Proof. reflexivity. Qed.

Lemma connected_queue_objs diff self q rows w :
  queue_objs (connected diff self q rows w) =
  alter (set_queue (survivors (age diff (queue q) (items w)) (queue q))) self
    (queue_objs w).
Proof. reflexivity. Qed.

(** C1, for a sequence of distinct item objects with float ttls: in a queue
    that is disconnected since [t0], [connect] at time [clock w] returns and
    takes [diff = clock w - t0] off the ttl of every item of the in-memory
    sequence (uuid, data and flags stay, and no other object is touched),
    keeps in memory, in their order, exactly the items whose new ttl is
    [>= 0] (a ttl of exactly 0 stays, a ttl below 0 goes), writes the new ttl
    of the kept persistent items to the storage in one batch and deletes the
    evicted persistent items from the storage in one batch.  The calls on
    the storage succeed. *)
Theorem connect_ages_and_evicts w self q s rows t0 :
  queue_objs w !! self = Some q ->
  last_disconnect_absolute q = Some t0 ->
  storage (manager w) = Some s ->
  sound s rows w ->
  queue_wf w q ->
  let diff := PrimFloat.sub (clock w) t0 in
  exists w' q',
    Queue_connect self w = (Ret tt, w') /\
    (forall a it t, a ∈ queue q -> items w !! a = Some it -> ttl it = Some t ->
       items w' !! a =
         Some (mkItem (uuid it) (data it) (PrimFloat.sub t diff) (flags it))) /\
    (forall a, a ∉ queue q -> items w' !! a = items w !! a) /\
    queue_objs w' !! self = Some q' /\
    queue q' = List.filter (survives (items w')) (queue q) /\
    (forall a it', a ∈ queue q -> items w' !! a = Some it' ->
                   ttl it' = Some 0%float -> a ∈ queue q') /\
    (forall a it' t', a ∈ queue q -> items w' !! a = Some it' ->
                   ttl it' = Some t' ->
                   PrimFloat.ltb t' 0%float = true -> a ∉ queue q') /\
    database w' =
      Some (batch_delete
              (deref (items w')
                 (persistent_of (items w') (evicted (items w') (queue q))))
              (batch_update_ttl
                 (deref (items w')
                    (persistent_of (items w') (survivors (items w') (queue q))))
                 rows)).
Proof.
  intros Hq Ht Hst Hs Hwf diff.
  pose proof (Queue_connect_ok _ _ _ _ _ _ Hq Ht Hst Hs Hwf) as Hrun.
  fold diff in Hrun. destruct Hwf as [Hnd Hv].
  set (h' := age diff (queue q) (items w)).
  exists (connected diff self q rows w),
         (set_queue (survivors h' (queue q)) q).
  assert (Hkeep : forall a it', items (connected diff self q rows w) !! a = Some it' ->
            (a ∈ List.filter (survives h') (queue q) <->
             a ∈ queue q /\ alive it' = true)).
  { intros a it' Ha. rewrite connected_items in Ha. fold h' in Ha.
    rewrite list_elem_of_In, filter_In, <- list_elem_of_In.
    unfold survives. now rewrite Ha. }
  split; [exact Hrun|].
  split; [|split; [|split; [|split; [|split; [|split]]]]].
  - intros a it t Ha Hit Ht'. rewrite connected_items, age_lookup_in by assumption.
    rewrite Hit. cbn [fmap option_fmap option_map]. f_equal. now apply aged_float.
  - intros a Ha. rewrite connected_items. now apply age_lookup_notin.
  - rewrite connected_queue_objs, list_lookup_alter_eq, Hq. reflexivity.
  - reflexivity.
  - intros a it' Ha Hit' H0. cbn [queue set_queue]. unfold survivors.
    apply (Hkeep _ _ Hit'). split; [exact Ha | now apply zero_alive].
  - intros a it' t' Ha Hit' Ht' Hneg Hin. cbn [queue set_queue] in Hin.
    unfold survivors in Hin. apply (Hkeep _ _ Hit') in Hin as [_ Hal].
    rewrite (below_zero_not_alive _ _ Ht' Hneg) in Hal. discriminate.
  - reflexivity.
Qed.

Lemma three_items_wf : queue_wf three_items (mkQueue "jobs" [0; 1; 2]%nat (Some 10%float)).
Proof.
  split.
  - apply (bool_decide_unpack _). vm_compute. exact I.
  - intros a Ha. cbn in Ha.
    repeat (apply elem_of_cons in Ha as [->|Ha];
            [eexists; split; [reflexivity | now eexists]|]).
    now apply elem_of_nil in Ha.
Defined.

Lemma connect_ages_and_evicts_witness :
  exists w' q',
    Queue_connect 0%nat three_items = (Ret tt, w') /\
    items w' !! 0%nat = Some (mkItem "a" "x" 2%float 1) /\
    items w' !! 1%nat = Some (mkItem "b" "y" 0%float 0) /\
    items w' !! 2%nat = Some (mkItem "c" "z" (-2)%float 1) /\
    (forall a, a ∉ [0; 1; 2]%nat -> items w' !! a = items three_items !! a) /\
    queue_objs w' !! 0%nat = Some q' /\
    queue q' = [0; 1]%nat /\
    (forall a it', a ∈ [0; 1; 2]%nat -> items w' !! a = Some it' ->
                   ttl it' = Some 0%float -> a ∈ queue q') /\
    (forall a it' t', a ∈ [0; 1; 2]%nat -> items w' !! a = Some it' ->
                   ttl it' = Some t' ->
                   PrimFloat.ltb t' 0%float = true -> a ∉ queue q') /\
    database w' = Some [mkRow "jobs" "a" "x" 2%float 1].
Proof.
  destruct (connect_ages_and_evicts three_items 0%nat
              (mkQueue "jobs" [0; 1; 2]%nat (Some 10%float))
              (mkStorage false)
              [mkRow "jobs" "a" "x" 5%float 1; mkRow "jobs" "c" "z" 1%float 1]
              10%float eq_refl eq_refl eq_refl
              (conj eq_refl (conj eq_refl eq_refl)) three_items_wf)
    as (w' & q' & Hrun & H1 & H2 & H3 & H4 & H5 & H6 & H7).
  exists w', q'.
  split; [exact Hrun|].
  split; [exact (H1 0%nat _ _ (list_elem_of_here _ _) eq_refl eq_refl)|].
  split; [exact (H1 1%nat _ _ (list_elem_of_further _ _ _ (list_elem_of_here _ _))
                    eq_refl eq_refl)|].
  split; [exact (H1 2%nat _ _
                    (list_elem_of_further _ _ _
                       (list_elem_of_further _ _ _ (list_elem_of_here _ _)))
                    eq_refl eq_refl)|].
  repeat split; try assumption.
  - rewrite H4. vm_compute in Hrun. inversion Hrun; subst w'. reflexivity.
  - rewrite H7. vm_compute in Hrun. inversion Hrun; subst w'. reflexivity.
Defined.

(** C1 as stated fails.  The same item object, of ttl 5, is pushed twice;
    [connect] 3 later has taken 6 off its ttl, and the item stays in the
    sequence with the ttl -1 while its records are deleted from the storage.
    And an item whose ttl is [None] (a persistent item pushed with a ttl NaN,
    read back by a second process) makes [connect] raise [TypeError]. *)
Lemma connect_ages_twice_an_item_pushed_twice :
  (exists w',
     (Queue_push 0%nat 0%nat ;; Queue_push 0%nat 0%nat ;; sleep_until 3%float ;;
      Queue_connect 0%nat) empty_jobs = (Ret tt, w') /\
     items empty_jobs !! 0%nat = Some (mkItem "a" "x" 5%float 1) /\
     items w' !! 0%nat = Some (mkItem "a" "x" (-1)%float 1) /\
     queue_objs w' = [mkQueue "jobs" [0%nat] (Some 0%float)] /\
     database w' = Some []) /\
  (exists w1 w2,
     store_nan (boot None [] 0%float) = (Ret tt, w1) /\
     (q ← reload_queue; sleep_until 13%float ;; Queue_connect q)
       (boot (database w1) [] 10%float) = (Raise TypeError, w2) /\
     items w2 = [Build_Item "n" "x" None FLAG_PERSISTENT]).
Proof.
  split.
  - eexists. split; [vm_compute; reflexivity|]. repeat split; reflexivity.
  - eexists _, _. split; [vm_compute; reflexivity|].
    split; [vm_compute; reflexivity|]. reflexivity.
Qed.

(** ** What the storage leaves alone *)

Lemma same_objects_refl w : same_objects w w.
Proof. now repeat split. Qed.

Lemma same_objects_trans w1 w2 w3 :
  same_objects w1 w2 -> same_objects w2 w3 -> same_objects w1 w3.
Proof.
  intros (A1 & A2 & A3 & A4) (B1 & B2 & B3 & B4).
  repeat split; congruence.
Qed.

Lemma storage_only_ret {A : Type} (a : A) : storage_only (mret a).
Proof. intros w. apply same_objects_refl. Qed.

Lemma storage_only_raise {A : Type} e : storage_only (@raise A e).
Proof. intros w. apply same_objects_refl. Qed.

Lemma storage_only_bind {A B : Type} (m : Py A) (k : A -> Py B) :
  storage_only m -> (forall a, storage_only (k a)) -> storage_only (m ≫= k).
Proof.
  intros Hm Hk w. specialize (Hm w). unfold mbind, Py_bind.
  destruct (m w) as [[a|e] w1]; simpl in *; [|exact Hm].
  eapply same_objects_trans; [exact Hm | apply Hk].
Qed.

Lemma storage_only_for_each {A : Type} (body : A -> Py unit) (l : list A) :
  (forall x, storage_only (body x)) -> storage_only (for_each l body).
Proof.
  intros Hb. induction l as [|x l IH]; simpl.
  - apply storage_only_ret.
  - apply storage_only_bind; [apply Hb | intros _; exact IH].
Qed.

Lemma storage_only_sqlite_call s : storage_only (sqlite_call s).
Proof.
  intros w. unfold sqlite_call.
  destruct (conn_closed s); [apply same_objects_refl|].
  destruct (faults w) as [|[|] fs]; now repeat split.
Qed.

Lemma storage_only_gets {A : Type} (f : World -> A) : storage_only (gets f).
Proof. intros w. apply same_objects_refl. Qed.

Lemma storage_only_execute_dml s f : storage_only (execute_dml s f).
Proof.
  unfold execute_dml.
  apply storage_only_bind; [apply storage_only_sqlite_call | intros _].
  apply storage_only_bind; [apply storage_only_gets | intros [rows|]].
  - intros w. now repeat split.
  - apply storage_only_raise.
Qed.

Lemma storage_only_get_item a : storage_only (get_item a).
Proof.
  intros w. unfold get_item. destruct (items w !! a); apply same_objects_refl.
Qed.

Lemma storage_only_attr_uuid o : storage_only (attr_uuid o).
Proof.
  destruct o; simpl; [|apply storage_only_raise].
  apply storage_only_bind; [apply storage_only_get_item | intros it].
  apply storage_only_ret.
Qed.

Lemma storage_only_manager_storage : storage_only manager_storage.
Proof.
  intros w. unfold manager_storage, gets, mbind, Py_bind.
  destruct (storage (manager w)); apply same_objects_refl.
Qed.

Lemma storage_only_execute_insert s b f : storage_only (execute_insert s b f).
Proof.
  unfold execute_insert.
  destruct (conn_closed s); [apply storage_only_raise|].
  destruct b; [apply storage_only_execute_dml|].
  apply storage_only_bind; [apply storage_only_gets | intros [rows|]];
    apply storage_only_raise.
Qed.

Lemma storage_only_push s n a : storage_only (SqliteQueuesStorage_push s n a).
Proof.
  unfold SqliteQueuesStorage_push, conn_commit.
  apply storage_only_bind; [apply storage_only_get_item | intros it].
  apply storage_only_bind; [apply storage_only_execute_insert | intros _].
  apply storage_only_sqlite_call.
Qed.

Lemma storage_only_delete_items s l :
  storage_only (SqliteQueuesStorage_delete_items s l).
Proof.
  unfold SqliteQueuesStorage_delete_items, conn_commit.
  apply storage_only_bind; [|intros _; apply storage_only_sqlite_call].
  apply storage_only_for_each. intros o.
  apply storage_only_bind; [apply storage_only_attr_uuid | intros u].
  apply storage_only_execute_dml.
Qed.

Lemma storage_only_update_items_ttl s l :
  storage_only (SqliteQueuesStorage_update_items_ttl s l).
Proof.
  unfold SqliteQueuesStorage_update_items_ttl, conn_commit.
  apply storage_only_bind; [|intros _; apply storage_only_sqlite_call].
  apply storage_only_for_each. intros a.
  apply storage_only_bind; [apply storage_only_get_item | intros it].
  apply storage_only_execute_dml.
Qed.

Lemma storage_only_connect_storage_calls upd del :
  storage_only (connect_storage_calls upd del).
Proof.
  unfold connect_storage_calls.
  apply storage_only_bind; [apply storage_only_manager_storage | intros s].
  apply storage_only_bind; [apply storage_only_update_items_ttl | intros _].
  apply storage_only_bind; [apply storage_only_manager_storage | intros s'].
  apply storage_only_delete_items.
Qed.

(** [connect] is its loop, the two batch calls, and the assignment to
    [self.queue[:]]. *)
Lemma Queue_connect_unfold self w q t0 :
  queue_objs w !! self = Some q ->
  last_disconnect_absolute q = Some t0 ->
  Queue_connect self w =
  ('(fresh, upd, del) ←
     connect_loop (PrimFloat.sub (clock w) t0) (queue q) [] [] [];
   connect_storage_calls upd del ;;
   update_queue_obj self (set_queue fresh)) w.
Proof.
  intros Hq Ht. unfold Queue_connect, time_time.
  erewrite bind_ret by reflexivity.
  rewrite (bind_ret _ _ _ _ _ (get_queue_obj_ok _ _ _ Hq)). rewrite Ht.
  unfold mbind, Py_bind, connect_storage_calls.
  destruct (connect_loop _ _ _ _ _ w) as [[[[fresh upd] del]|e] w1];
    [|reflexivity].
  unfold mbind, Py_bind.
  destruct (manager_storage w1) as [[s|e] w2]; [|reflexivity].
  destruct (SqliteQueuesStorage_update_items_ttl s upd w2) as [[[]|e] w3];
    [|reflexivity].
  destruct (manager_storage w3) as [[s'|e] w4]; reflexivity.
Qed.

(** ** connect, when a batch call on the storage raises *)

Lemma connect_loop_raises diff : forall l w fresh upd del e w',
  connect_loop diff l fresh upd del w = (Raise e, w') ->
  e = TypeError \/ e = BadReference.
Proof.
  induction l as [|a l IH]; intros w fresh upd del e w' H.
  - discriminate H.
  - cbn [connect_loop] in H. unfold mbind, Py_bind, get_item in H.
    destruct (items w !! a) as [it|]; [|inversion H; now right].
    destruct (ttl it) as [t|]; [|inversion H; now left].
    unfold modify in H.
    destruct (alive _); eapply IH; exact H.
Qed.

Lemma connect_loop_returns diff : forall l w fresh upd del r w',
  NoDup l ->
  connect_loop diff l fresh upd del w = (Ret r, w') ->
  forall a, a ∈ l -> exists it, items w !! a = Some it /\ float_ttl it.
Proof.
  induction l as [|a l IH]; intros w fresh upd del r w' Hnd H b Hb.
  - now apply elem_of_nil in Hb.
  - apply NoDup_cons in Hnd as [Ha Hnd].
    cbn [connect_loop] in H. unfold mbind, Py_bind, get_item in H.
    destruct (items w !! a) as [it|] eqn:Hit; [|discriminate H].
    destruct (ttl it) as [t|] eqn:Ht; [|discriminate H].
    unfold modify in H.
    apply elem_of_cons in Hb as [->|Hb].
    + exists it. split; [exact Hit | now exists t].
    + assert (Hba : a <> b) by (intros ->; now apply Ha).
      destruct (alive _);
        destruct (IH _ _ _ _ _ _ Hnd H b Hb) as (it' & Hit' & Hf');
        exists it'; (split; [|exact Hf']);
        cbn [items set_items] in Hit';
        now rewrite list_lookup_insert_ne in Hit'.
Qed.

(** C3, as the code has it, for a sequence of distinct item objects: when
    one of the two batch calls of [connect] raises, the in-memory sequence is
    not replaced (every queue object is as it was,
    [last_disconnect_absolute] included), but the loop has already taken
    [diff] off the ttl of every item of the sequence, in place: the ttl
    values seen afterwards are the decremented ones. *)
Theorem connect_failure_keeps_sequence_ages_items w self q t0 e w' :
  queue_objs w !! self = Some q ->
  last_disconnect_absolute q = Some t0 ->
  NoDup (queue q) ->
  Queue_connect self w = (Raise e, w') ->
  storage_error e ->
  let diff := PrimFloat.sub (clock w) t0 in
  queue_objs w' = queue_objs w /\
  (forall a, a ∈ queue q ->
     exists it t,
       items w !! a = Some it /\ ttl it = Some t /\
       items w' !! a =
         Some (mkItem (uuid it) (data it) (PrimFloat.sub t diff) (flags it))) /\
  (forall a, a ∉ queue q -> items w' !! a = items w !! a).
Proof.
  intros Hq Ht Hnd Hrun He diff.
  rewrite (Queue_connect_unfold _ _ _ _ Hq Ht) in Hrun. fold diff in Hrun.
  destruct (connect_loop diff (queue q) [] [] [] w) as [[r|e1] w1] eqn:Hloop.
  2:{ rewrite (bind_raise _ _ _ _ _ Hloop) in Hrun. inversion Hrun; subst e1 w1.
      apply connect_loop_raises in Hloop.
      destruct Hloop as [->| ->]; destruct He as [He|[He|He]]; discriminate He. }
  pose proof (connect_loop_returns _ _ _ _ _ _ _ _ Hnd Hloop) as Hv.
  clear Hloop r w1.
  rewrite (bind_ret _ _ _ _ _ (connect_loop_ok diff _ _ [] [] [] Hnd Hv))
    in Hrun.
  cbn [app] in Hrun.
  set (h' := age diff (queue q) (items w)) in *.
  set (upd := List.filter (fun a => survives h' a && persists h' a) (queue q)) in *.
  set (del := List.filter (fun a => negb (survives h' a) && persists h' a) (queue q)) in *.
  pose proof (storage_only_connect_storage_calls upd del
                (set_items (fun _ => h') w)) as Hsame.
  unfold mbind, Py_bind in Hrun.
  destruct (connect_storage_calls upd del (set_items (fun _ => h') w))
    as [[[]|e'] w2]; [discriminate Hrun|].
  inversion Hrun; subst e' w2. clear Hrun.
  destruct Hsame as (Hi & Hqo & _ & _). cbn [snd] in Hi, Hqo.
  split; [exact Hqo|]. split.
  - intros a Ha. destruct (Hv a Ha) as (it & Hit & [t Hti]).
    exists it, t. split; [exact Hit|]. split; [exact Hti|].
    rewrite Hi. change (items (set_items (fun _ => h') w)) with h'.
    subst h'. rewrite age_lookup_in by assumption. rewrite Hit.
    cbn [fmap option_fmap option_map]. f_equal. now apply aged_float.
  - intros a Ha. rewrite Hi. change (h' !! a = items w !! a).
    subst h'. now apply age_lookup_notin.
Qed.

Lemma connect_failure_keeps_sequence_ages_items_witness :
  queue_objs (snd (Queue_connect 0%nat (three_items_on [true]))) =
    queue_objs (three_items_on [true]) /\
  items (snd (Queue_connect 0%nat (three_items_on [true]))) !! 0%nat =
    Some (mkItem "a" "x" 2%float 1) /\
  items (snd (Queue_connect 0%nat (three_items_on [true]))) !! 2%nat =
    Some (mkItem "c" "z" (-2)%float 1) /\
  (forall a, a ∉ [0; 1; 2]%nat ->
     items (snd (Queue_connect 0%nat (three_items_on [true]))) !! a =
       items (three_items_on [true]) !! a).
Proof.
  assert (Hnd : NoDup [0; 1; 2]%nat)
    by (apply (bool_decide_unpack _); vm_compute; exact I).
  assert (Hrun : Queue_connect 0%nat (three_items_on [true]) =
                 (Raise OperationalError,
                  snd (Queue_connect 0%nat (three_items_on [true]))))
    by (vm_compute; reflexivity).
  destruct (connect_failure_keeps_sequence_ages_items (three_items_on [true])
              0%nat (mkQueue "jobs" [0; 1; 2]%nat (Some 10%float)) 10%float
              OperationalError
              (snd (Queue_connect 0%nat (three_items_on [true])))
              eq_refl eq_refl Hnd Hrun (or_intror (or_introl eq_refl)))
    as (H1 & H2 & H3).
  split; [exact H1|]. split; [|split; [|exact H3]].
  - destruct (H2 0%nat (list_elem_of_here _ _)) as (it & t & Hit & Ht & H').
    inversion Hit; subst it. inversion Ht; subst t. exact H'.
  - destruct (H2 2%nat (list_elem_of_further _ _ _
                          (list_elem_of_further _ _ _ (list_elem_of_here _ _))))
      as (it & t & Hit & Ht & H').
    inversion Hit; subst it. inversion Ht; subst t. exact H'.
Defined.

(** C3 as stated fails.  The first UPDATE of [connect] meets a fault of the
    medium: [connect] raises and the sequence is the one before the call,
    but the item with ttl 1 now has ttl -2 (and the one with ttl 5 has 2).
    When the fault comes at the DELETE, after the batch update went through,
    the storage holds the new ttl as well.  And when the same item object
    was pushed twice, the failed [connect] at a distance of 3 has taken 6 off
    its ttl. *)
Lemma connect_failure_changes_ttl :
  (exists w',
     Queue_connect 0%nat (three_items_on [true]) = (Raise OperationalError, w') /\
     queue_objs w' = queue_objs (three_items_on [true]) /\
     items (three_items_on [true]) !! 2%nat = Some (mkItem "c" "z" 1%float 1) /\
     items w' !! 2%nat = Some (mkItem "c" "z" (-2)%float 1) /\
     database w' = database (three_items_on [true])) /\
  (exists w',
     Queue_connect 0%nat (three_items_on [false; false; true]) =
       (Raise OperationalError, w') /\
     queue_objs w' = queue_objs (three_items_on [false; false; true]) /\
     items (three_items_on [false; false; true]) !! 0%nat =
       Some (mkItem "a" "x" 5%float 1) /\
     items w' !! 0%nat = Some (mkItem "a" "x" 2%float 1) /\
     database w' =
       Some [mkRow "jobs" "a" "x" 2%float 1; mkRow "jobs" "c" "z" 1%float 1]) /\
  (exists w',
     (Queue_push 0%nat 0%nat ;; Queue_push 0%nat 0%nat ;; sleep_until 3%float ;;
      attempt (Queue_connect 0%nat))
       (set_faults [false; false; false; false; true] empty_jobs) =
       (Ret (Raise OperationalError), w') /\
     queue_objs w' = [mkQueue "jobs" [0; 0]%nat (Some 0%float)] /\
     items empty_jobs !! 0%nat = Some (mkItem "a" "x" 5%float 1) /\
     items w' !! 0%nat = Some (mkItem "a" "x" (-1)%float 1)).
Proof.
  split; [|split]; eexists; (split; [vm_compute; reflexivity|]);
    repeat split; reflexivity.
Qed.

(** ** disconnect *)

Lemma Queue_disconnect_ok w self q :
  queue_objs w !! self = Some q ->
  Queue_disconnect self w =
  (Ret tt,
   set_queue_objs
     (alter (set_last_disconnect_absolute (Some (clock w))) self) w).
Proof.
  intros Hq. unfold Queue_disconnect, time_time.
  erewrite bind_ret by reflexivity.
  now rewrite (bind_ret _ _ _ _ _ (get_queue_obj_ok _ _ _ Hq)).
Qed.

Lemma sound_set_clock s rows t w : sound s rows w -> sound s rows (set_clock t w).
Proof. intros (Hc & Hd & Hf). now split. Qed.

(** What [connect] does to the items and to [last_disconnect_absolute],
    whatever its calls on the storage do. *)
Lemma Queue_connect_ages w self q t0 :
  queue_objs w !! self = Some q ->
  last_disconnect_absolute q = Some t0 ->
  queue_wf w q ->
  exists o w' l,
    Queue_connect self w = (o, w') /\
    items w' = age (PrimFloat.sub (clock w) t0) (queue q) (items w) /\
    queue_objs w' !! self = Some (mkQueue (name q) l (Some t0)).
Proof.
  intros Hq Ht [Hnd Hv].
  rewrite (Queue_connect_unfold _ _ _ _ Hq Ht).
  set (diff := PrimFloat.sub (clock w) t0).
  rewrite (bind_ret _ _ _ _ _ (connect_loop_ok diff _ _ [] [] [] Hnd Hv)).
  cbn [app].
  set (h' := age diff (queue q) (items w)).
  set (fresh := List.filter (survives h') (queue q)).
  set (upd := List.filter (fun a => survives h' a && persists h' a) (queue q)).
  set (del := List.filter (fun a => negb (survives h' a) && persists h' a) (queue q)).
  pose proof (storage_only_connect_storage_calls upd del
                (set_items (fun _ => h') w)) as Hsame.
  unfold mbind, Py_bind.
  destruct (connect_storage_calls upd del (set_items (fun _ => h') w))
    as [[[]|e] w2]; destruct Hsame as (Hi & Hqo & _); cbn [snd] in Hi, Hqo.
  - exists (Ret tt), (set_queue_objs (alter (set_queue fresh) self) w2), fresh.
    split; [reflexivity|]. split; [exact Hi|].
    cbn [queue_objs set_queue_objs]. rewrite Hqo. cbn [queue_objs set_items].
    rewrite list_lookup_alter_eq, Hq. cbn [fmap option_fmap option_map].
    unfold set_queue. now rewrite Ht.
  - exists (Raise e), w2, (queue q).
    split; [reflexivity|]. split; [exact Hi|].
    rewrite Hqo. cbn [queue_objs set_items]. rewrite Hq, <- Ht. now destruct q.
Qed.

(** C10, for a sequence of distinct item objects with float ttls:
    [disconnect] overwrites [last_disconnect_absolute] with the current time
    whatever it held; so after [disconnect] at [t1] and again at [t2] with no
    [connect] between, [connect] at [t3] takes [t3 - t2] off the ttl of every
    item, whatever its calls on the storage do: [t1] has no part in the
    outcome.  When the calls on the storage succeed, [connect] returns and
    keeps the items whose new ttl is [>= 0]. *)
Theorem disconnect_last_write_wins w self q t1 t2 t3 :
  queue_objs w !! self = Some q ->
  queue_wf w q ->
  (exists w1, Queue_disconnect self w = (Ret tt, w1) /\
     queue_objs w1 !! self = Some (mkQueue (name q) (queue q) (Some (clock w)))) /\
  (exists o w' q',
     disconnect_twice_connect self t1 t2 t3 w = (o, w') /\
     (forall a it t, a ∈ queue q -> items w !! a = Some it -> ttl it = Some t ->
        items w' !! a =
          Some (mkItem (uuid it) (data it)
                  (PrimFloat.sub t (PrimFloat.sub t3 t2)) (flags it))) /\
     queue_objs w' !! self = Some q' /\
     last_disconnect_absolute q' = Some t2 /\
     (forall s rows, storage (manager w) = Some s -> sound s rows w ->
        o = Ret tt /\
        queue q' = List.filter (survives (items w')) (queue q))).
Proof.
  intros Hq Hwf. split.
  - eexists. split; [exact (Queue_disconnect_ok _ _ _ Hq)|].
    cbn [queue_objs set_queue_objs]. now rewrite list_lookup_alter_eq, Hq.
  - set (q1 := set_last_disconnect_absolute (Some t1) q).
    set (q2 := set_last_disconnect_absolute (Some t2) q1).
    set (w1 := set_queue_objs
                 (alter (set_last_disconnect_absolute (Some t1)) self)
                 (set_clock t1 w)).
    set (w2 := set_queue_objs
                 (alter (set_last_disconnect_absolute (Some t2)) self)
                 (set_clock t2 w1)).
    assert (Hq1 : queue_objs w1 !! self = Some q1).
    { subst w1. cbn [queue_objs set_queue_objs set_clock].
      now rewrite list_lookup_alter_eq, Hq. }
    assert (Hq2 : queue_objs (set_clock t3 w2) !! self = Some q2).
    { subst w2. cbn [queue_objs set_queue_objs set_clock].
      now rewrite list_lookup_alter_eq, Hq1. }
    assert (Hrun : disconnect_twice_connect self t1 t2 t3 w =
                   Queue_connect self (set_clock t3 w2)).
    { unfold disconnect_twice_connect, sleep_until.
      erewrite bind_ret by reflexivity.
      rewrite (bind_ret _ _ _ _ _
                 (Queue_disconnect_ok (set_clock t1 w) _ _ Hq)).
      erewrite bind_ret by reflexivity.
      rewrite (bind_ret _ _ _ _ _
                 (Queue_disconnect_ok (set_clock t2 w1) _ _ Hq1)).
      erewrite bind_ret by reflexivity. reflexivity. }
    rewrite Hrun.
    assert (Hwf2 : queue_wf (set_clock t3 w2) q2) by exact Hwf.
    destruct (Queue_connect_ages (set_clock t3 w2) self q2 t2 Hq2 eq_refl Hwf2)
      as (o & w' & l & Hconn & Hi & Hq').
    cbn [clock set_clock] in Hi.
    change (queue q2) with (queue q) in Hi.
    change (items (set_clock t3 w2)) with (items w) in Hi.
    destruct Hwf as [Hnd Hv].
    exists o, w', (mkQueue (name q2) l (Some t2)).
    split; [exact Hconn|]. split; [|split; [exact Hq'|split; [reflexivity|]]].
    + intros a it t Ha Hit Hti. rewrite Hi.
      rewrite age_lookup_in by assumption. rewrite Hit.
      cbn [fmap option_fmap option_map]. f_equal. now apply aged_float.
    + intros s rows Hst Hs.
      assert (Hs2 : sound s rows (set_clock t3 w2)).
      { apply sound_set_clock, sound_set_queue_objs, sound_set_clock,
              sound_set_queue_objs, sound_set_clock, Hs. }
      pose proof (Queue_connect_ok (set_clock t3 w2) self q2 s rows t2
                    Hq2 eq_refl Hst Hs2 Hwf2) as Hok.
      rewrite Hconn in Hok. inversion Hok; subst o w'. split; [reflexivity|].
      rewrite connected_queue_objs, list_lookup_alter_eq, Hq2 in Hq'.
      inversion Hq'. reflexivity.
Qed.

Lemma disconnect_last_write_wins_witness :
  (exists w1, Queue_disconnect 0%nat three_items = (Ret tt, w1) /\
     queue_objs w1 !! 0%nat = Some (mkQueue "jobs" [0; 1; 2]%nat (Some 13%float))) /\
  (exists w' q',
     disconnect_twice_connect 0%nat 20%float 30%float 32%float three_items
       = (Ret tt, w') /\
     items w' !! 0%nat = Some (mkItem "a" "x" 3%float 1) /\
     items w' !! 1%nat = Some (mkItem "b" "y" 1%float 0) /\
     items w' !! 2%nat = Some (mkItem "c" "z" (-1)%float 1) /\
     queue_objs w' !! 0%nat = Some q' /\
     last_disconnect_absolute q' = Some 30%float /\
     queue q' = [0; 1]%nat).
Proof.
  destruct (disconnect_last_write_wins three_items 0%nat
              (mkQueue "jobs" [0; 1; 2]%nat (Some 10%float))
              20%float 30%float 32%float eq_refl three_items_wf)
    as [H1 (o & w' & q' & Hrun & H2 & H3 & H4 & H5)].
  destruct (H5 (mkStorage false)
              [mkRow "jobs" "a" "x" 5%float 1; mkRow "jobs" "c" "z" 1%float 1]
              eq_refl (conj eq_refl (conj eq_refl eq_refl))) as [Ho H6].
  subst o.
  split; [exact H1|]. exists w', q'.
  split; [exact Hrun|].
  split; [exact (H2 0%nat _ _ (list_elem_of_here _ _) eq_refl eq_refl)|].
  split; [exact (H2 1%nat _ _ (list_elem_of_further _ _ _ (list_elem_of_here _ _))
                    eq_refl eq_refl)|].
  split; [exact (H2 2%nat _ _
                    (list_elem_of_further _ _ _
                       (list_elem_of_further _ _ _ (list_elem_of_here _ _)))
                    eq_refl eq_refl)|].
  split; [exact H3|]. split; [exact H4|].
  rewrite H6. vm_compute in Hrun. inversion Hrun; subst w'. reflexivity.
Defined.

(** C10 as stated fails.  The same item object, of ttl 5, is pushed twice;
    after [disconnect] at 20 and at 30, [connect] at 32 has taken 4 off its
    ttl, not 2.  And an item whose ttl is [None] (a persistent item pushed
    with a ttl NaN, read back by a second process) makes [connect] raise
    [TypeError] before any ttl is decremented. *)
Lemma disconnect_twice_connect_charges_twice :
  (exists w',
     (Queue_push 0%nat 0%nat ;; Queue_push 0%nat 0%nat ;;
      disconnect_twice_connect 0%nat 20%float 30%float 32%float) empty_jobs =
       (Ret tt, w') /\
     items empty_jobs !! 0%nat = Some (mkItem "a" "x" 5%float 1) /\
     items w' !! 0%nat = Some (mkItem "a" "x" 1%float 1)) /\
  (exists w1 w2,
     store_nan (boot None [] 0%float) = (Ret tt, w1) /\
     (q ← reload_queue;
      disconnect_twice_connect q 20%float 30%float 32%float)
       (boot (database w1) [] 10%float) = (Raise TypeError, w2) /\
     items w2 = [Build_Item "n" "x" None FLAG_PERSISTENT]).
Proof.
  split.
  - eexists. split; [vm_compute; reflexivity|]. split; reflexivity.
  - eexists _, _. split; [vm_compute; reflexivity|].
    split; [vm_compute; reflexivity|]. reflexivity.
Qed.

(** ** push, get and pop on the in-memory sequence *)

Lemma Queue_get_ok w self q :
  queue_objs w !! self = Some q ->
  Queue_get self w = (Ret (head (queue q)), w).
Proof.
  intros Hq. unfold Queue_get.
  rewrite (bind_ret _ _ _ _ _ (get_queue_obj_ok _ _ _ Hq)).
  now destruct (queue q).
Qed.

(** [push] appends to the sequence, whatever the storage does then. *)
Lemma Queue_push_appends w self q a :
  queue_objs w !! self = Some q ->
  exists o w',
    Queue_push self a w = (o, w') /\
    items w' = items w /\
    queue_objs w' = alter (set_queue (queue q ++ [a])) self (queue_objs w).
Proof.
  intros Hq. unfold Queue_push.
  rewrite (bind_ret _ _ _ _ _ (get_queue_obj_ok _ _ _ Hq)).
  erewrite bind_ret by reflexivity.
  set (w1 := set_queue_objs (alter (set_queue (queue q ++ [a])) self) w).
  set (tail := _ ≫= _).
  assert (Ht : storage_only tail).
  { subst tail. apply storage_only_bind; [apply storage_only_get_item|].
    intros it. destruct (persistent it); [|apply storage_only_ret].
    apply storage_only_bind; [apply storage_only_manager_storage|].
    intros s. apply storage_only_push. }
  destruct (Ht w1) as (Hi & Hqo & _). destruct (tail w1) as [o w'].
  exists o, w'. split; [reflexivity|]. split; [exact Hi | exact Hqo].
Qed.

(** [pop] on an empty sequence does nothing and raises nothing. *)
Lemma Queue_pop_empty w self q :
  queue_objs w !! self = Some q -> queue q = [] ->
  Queue_pop self w = (Ret tt, w).
Proof.
  intros Hq He. unfold Queue_pop.
  rewrite (bind_ret _ _ _ _ _ (get_queue_obj_ok _ _ _ Hq)).
  now rewrite He.
Qed.

(** [pop] takes the first item off the sequence, whatever happens then. *)
Lemma Queue_pop_front w self q a l :
  queue_objs w !! self = Some q -> queue q = a :: l ->
  exists o w',
    Queue_pop self w = (o, w') /\
    items w' = items w /\
    queue_objs w' = alter (set_queue l) self (queue_objs w).
Proof.
  intros Hq He. unfold Queue_pop.
  rewrite (bind_ret _ _ _ _ _ (get_queue_obj_ok _ _ _ Hq)). rewrite He.
  erewrite bind_ret by reflexivity.
  set (w1 := set_queue_objs (alter (set_queue l) self) w).
  set (tail := _ ≫= _).
  assert (Ht : storage_only tail).
  { subst tail. apply storage_only_bind; [apply storage_only_get_item|].
    intros it. destruct (persistent it); [|apply storage_only_ret].
    apply storage_only_bind; [apply storage_only_manager_storage|].
    intros s. apply storage_only_delete_items. }
  destruct (Ht w1) as (Hi & Hqo & _). destruct (tail w1) as [o w'].
  exists o, w'. split; [reflexivity|]. split; [exact Hi | exact Hqo].
Qed.

(** [pop] of a persistent item: [delete_items] is handed the list
    [[item.uuid]] and reads [.uuid] of its element, a [str]; it raises
    before any DELETE, and the table is as it was.  ([connect] hands the
    same method a list of [Item] objects.) *)
Lemma Queue_pop_persistent w self q a l it :
  queue_objs w !! self = Some q -> queue q = a :: l ->
  items w !! a = Some it -> persistent it = true ->
  Queue_pop self w =
  (Raise AttributeError, set_queue_objs (alter (set_queue l) self) w).
Proof.
  intros Hq He Hit Hp. unfold Queue_pop.
  rewrite (bind_ret _ _ _ _ _ (get_queue_obj_ok _ _ _ Hq)). rewrite He.
  erewrite bind_ret by reflexivity.
  erewrite bind_ret by (apply get_item_ok; exact Hit).
  rewrite Hp.
  unfold manager_storage, gets, mbind, Py_bind. cbn [manager set_queue_objs].
  destruct (storage (manager w)); reflexivity.
Qed.

(** [pop] of an item that is not persistent returns and leaves the storage
    alone. *)
Lemma Queue_pop_transient w self q a l it :
  queue_objs w !! self = Some q -> queue q = a :: l ->
  items w !! a = Some it -> persistent it = false ->
  Queue_pop self w =
  (Ret tt, set_queue_objs (alter (set_queue l) self) w).
Proof.
  intros Hq He Hit Hp. unfold Queue_pop.
  rewrite (bind_ret _ _ _ _ _ (get_queue_obj_ok _ _ _ Hq)). rewrite He.
  erewrite bind_ret by reflexivity.
  erewrite bind_ret by (apply get_item_ok; exact Hit).
  now rewrite Hp.
Qed.

(** C2, at the failing input: [pop] takes the persistent item a off the
    sequence, then raises [AttributeError]; the record of a is still in the
    storage. *)
Theorem pop_persistent_keeps_record :
  exists w',
    Queue_pop 0%nat one_persistent = (Raise AttributeError, w') /\
    queue_objs w' = [mkQueue "jobs" [] (Some 0%float)] /\
    database w' = Some [mkRow "jobs" "a" "x" 5%float FLAG_PERSISTENT].
Proof.
  eexists. split; [|split].
  - apply (Queue_pop_persistent one_persistent 0%nat
             (mkQueue "jobs" [0%nat] (Some 0%float)) 0%nat []
             (mkItem "a" "x" 5%float FLAG_PERSISTENT)); reflexivity.
  - reflexivity.
  - reflexivity.
Qed.

(** ** FIFO *)

Lemma push_all_appends self : forall ps w q,
  queue_objs w !! self = Some q ->
  exists w',
    push_all self ps w = (Ret tt, w') /\
    items w' = items w /\
    queue_objs w' !! self = Some (set_queue (queue q ++ ps) q).
Proof.
  induction ps as [|a ps IH]; intros w q Hq.
  - exists w. split; [reflexivity|]. split; [reflexivity|].
    rewrite app_nil_r. now destruct q.
  - destruct (Queue_push_appends w self q a Hq) as (o & w1 & Hpush & Hi & Hqo).
    assert (Hq1 : queue_objs w1 !! self = Some (set_queue (queue q ++ [a]) q))
      by now rewrite Hqo, list_lookup_alter_eq, Hq.
    destruct (IH w1 _ Hq1) as (w' & Hrun & Hi' & Hq').
    exists w'. split; [|split].
    + unfold push_all in *. cbn [for_each].
      erewrite bind_ret; [exact Hrun|].
      erewrite bind_attempt by exact Hpush. reflexivity.
    + congruence.
    + rewrite Hq'. cbn [queue set_queue name last_disconnect_absolute].
      now rewrite <- app_assoc.
Qed.

Lemma get_pop_front self : forall l w q,
  queue_objs w !! self = Some q -> queue q = l ->
  exists w',
    get_pop self (length l) w = (Ret (Some <$> l), w') /\
    items w' = items w /\
    queue_objs w' !! self = Some (set_queue [] q).
Proof.
  induction l as [|a l IH]; intros w q Hq He.
  - exists w. split; [reflexivity|]. split; [reflexivity|].
    rewrite Hq, <- He. now destruct q.
  - destruct (Queue_pop_front w self q a l Hq He) as (o & w1 & Hpop & Hi & Hqo).
    assert (Hq1 : queue_objs w1 !! self = Some (set_queue l q))
      by now rewrite Hqo, list_lookup_alter_eq, Hq.
    destruct (IH w1 _ Hq1 eq_refl) as (w' & Hrun & Hi' & Hq').
    exists w'. split; [|split].
    + cbn [length get_pop].
      rewrite (bind_ret _ _ _ _ _ (Queue_get_ok _ _ _ Hq)). rewrite He.
      erewrite bind_attempt by exact Hpop.
      erewrite bind_ret by exact Hrun. reflexivity.
    + congruence.
    + exact Hq'.
Qed.

(** C4: [n] pushes onto a queue followed by [n] pops take the items off in
    the order of the pushes: the pushes leave the sequence P1..Pn ([push]
    appends at the end), the k-th [get] returns Pk and the k-th [pop] takes
    it off the front, and after the [n] pops the sequence is empty. *)
Theorem fifo_order w self q ps :
  queue_objs w !! self = Some q ->
  queue q = [] ->
  (exists w1 q1,
     push_all self ps w = (Ret tt, w1) /\
     queue_objs w1 !! self = Some q1 /\ queue q1 = ps) /\
  (exists w' q',
     (push_all self ps ;; get_pop self (length ps)) w
       = (Ret (Some <$> ps), w') /\
     queue_objs w' !! self = Some q' /\ queue q' = []).
Proof.
  intros Hq He.
  destruct (push_all_appends self ps w q Hq) as (w1 & Hrun & Hi & Hq1).
  rewrite He in Hq1. cbn [app] in Hq1.
  split.
  - exists w1, (set_queue ps q). now repeat split.
  - destruct (get_pop_front self ps w1 _ Hq1 eq_refl) as (w' & Hrun' & _ & Hq').
    exists w', (set_queue [] (set_queue ps q)).
    split; [|split; [exact Hq' | reflexivity]].
    erewrite bind_ret by exact Hrun. exact Hrun'.
Qed.

Lemma fifo_order_witness :
  (exists w1 q1,
     push_all 0%nat [0; 1; 2]%nat empty_jobs = (Ret tt, w1) /\
     queue_objs w1 !! 0%nat = Some q1 /\ queue q1 = [0; 1; 2]%nat) /\
  (exists w' q',
     (push_all 0%nat [0; 1; 2]%nat ;; get_pop 0%nat 3) empty_jobs
       = (Ret [Some 0; Some 1; Some 2]%nat, w') /\
     queue_objs w' !! 0%nat = Some q' /\ queue q' = []).
Proof.
  exact (fifo_order empty_jobs 0%nat (mkQueue "jobs" [] (Some 0%float))
           [0; 1; 2]%nat eq_refl eq_refl).
Defined.

(** ** cleanup *)

(** Once the dictionary has another size than when the loop began, the
    next step of the iterator raises. *)
Lemma cleanup_loop_size_changed remaining di_used di_pos w :
  length (queues (manager w)) <> di_used ->
  cleanup_loop remaining di_used di_pos w = (Raise RuntimeError, w).
Proof.
  intros Hne. apply Nat.eqb_neq in Hne.
  destruct remaining; cbn [cleanup_loop];
    unfold gets, mbind, Py_bind; now rewrite Hne.
Qed.

Lemma filter_length_lt {A : Type} (p : A -> bool) (l : list A) x :
  In x l -> p x = false -> (length (List.filter p l) < length l)%nat.
Proof.
  induction l as [|y l IH]; intros Hin Hp; [destruct Hin|].
  pose proof (filter_length_le p l) as Hle.
  destruct Hin as [->|Hin]; simpl.
  - rewrite Hp. lia.
  - specialize (IH Hin Hp). destruct (p y); simpl; lia.
Qed.

Lemma dict_del_shorter k v d :
  In (k, v) d -> length (dict_del k d) <> length d.
Proof.
  intros Hin. unfold dict_del.
  assert (length (List.filter (fun kv => negb (String.eqb kv.1 k)) d) < length d)%nat;
    [|lia].
  apply (filter_length_lt _ _ (k, v) Hin). cbn. now rewrite String.eqb_refl.
Qed.

(** The loop of [cleanup] from position [di_pos]: it returns when no queue
    from there on is empty; otherwise it deletes the first empty one and
    raises at the next step of the iterator. *)
Lemma cleanup_loop_run : forall remaining di_pos w,
  (remaining + di_pos = length (queues (manager w)))%nat ->
  (forall kv, In kv (queues (manager w)) -> is_Some (queue_objs w !! kv.2)) ->
  cleanup_loop remaining (length (queues (manager w))) di_pos w =
  match List.find (is_empty w) (drop di_pos (queues (manager w))) with
  | None => (Ret tt, w)
  | Some (k, _) => (Raise RuntimeError, set_manager (set_queues (dict_del k)) w)
  end.
Proof.
  induction remaining as [|r IH]; intros pos w Hlen Hv.
  - cbn [cleanup_loop]. unfold gets, mbind, Py_bind.
    rewrite Nat.eqb_refl. cbn [negb].
    rewrite drop_ge by (simpl in Hlen; lia). reflexivity.
  - cbn [cleanup_loop]. unfold gets at 1, mbind at 1, Py_bind at 1.
    rewrite Nat.eqb_refl. cbn [negb].
    destruct (lookup_lt_is_Some_2 (queues (manager w)) pos) as [[k qa] Hkv];
      [lia|].
    rewrite Hkv. rewrite (drop_S _ _ _ Hkv). cbn [List.find].
    assert (Hin : In (k, qa) (queues (manager w))).
    { apply list_elem_of_In. eapply list_elem_of_lookup_2, Hkv. }
    destruct (Hv _ Hin) as [q Hq]. cbn [snd] in Hq.
    unfold Queue___len__.
    erewrite bind_ret; cycle 1.
    { rewrite (bind_ret _ _ _ _ _ (get_queue_obj_ok _ _ _ Hq)). reflexivity. }
    unfold is_empty at 1. cbn [snd]. rewrite Hq.
    destruct (Nat.eqb (length (queue q)) 0).
    + erewrite bind_ret by reflexivity.
      apply cleanup_loop_size_changed. cbn [manager set_manager queues set_queues].
      eapply dict_del_shorter, Hin.
    + erewrite bind_ret by reflexivity.
      apply IH; [lia | exact Hv].
Qed.

Lemma QueuesManager_cleanup_run w :
  (forall kv, In kv (queues (manager w)) -> is_Some (queue_objs w !! kv.2)) ->
  QueuesManager_cleanup w =
  match List.find (is_empty w) (queues (manager w)) with
  | None => (Ret tt, w)
  | Some (k, _) => (Raise RuntimeError, set_manager (set_queues (dict_del k)) w)
  end.
Proof.
  intros Hv. unfold QueuesManager_cleanup.
  erewrite bind_ret by reflexivity.
  rewrite (cleanup_loop_run _ 0 w) by (assumption || lia).
  reflexivity.
Qed.

(** C6, at the failing inputs: [cleanup] deletes the first empty queue while
    it iterates over the live view of the dictionary, and the next step of
    the iteration raises [RuntimeError].  With A, B, C registered, the empty
    queue C stays registered; with A and B registered, A is dropped and B
    kept, and [cleanup] raises all the same. *)
Theorem cleanup_raises_after_first_removal :
  (exists w',
     QueuesManager_cleanup manager_A_B_C = (Raise RuntimeError, w') /\
     queues (manager w') = [("B", 1%nat); ("C", 2%nat)]) /\
  (exists w',
     QueuesManager_cleanup manager_A_B = (Raise RuntimeError, w') /\
     queues (manager w') = [("B", 1%nat)]).
Proof.
  split; eexists; (split; [vm_compute; reflexivity | reflexivity]).
Qed.

(** ** close, and get_queue afterwards *)

Lemma QueuesManager_close_ok w s :
  storage (manager w) = Some s ->
  conn_closed s = false ->
  QueuesManager_close w = (Ret tt, set_manager (fun _ => mkManager None []) w).
Proof.
  intros Hs Hc. unfold QueuesManager_close.
  erewrite bind_ret by reflexivity.
  erewrite bind_ret by (apply manager_storage_ok; exact Hs).
  unfold SqliteQueuesStorage_close. rewrite Hc.
  reflexivity.
Qed.

(** When the connection is closed already, [self.storage.close()] raises:
    the queues are gone, the manager keeps its storage object. *)
Lemma QueuesManager_close_closed w s :
  storage (manager w) = Some s ->
  conn_closed s = true ->
  QueuesManager_close w =
  (Raise ProgrammingError, set_manager (set_queues (fun _ => [])) w).
Proof.
  intros Hs Hc. unfold QueuesManager_close.
  erewrite bind_ret by reflexivity.
  erewrite bind_ret by (apply manager_storage_ok; exact Hs).
  unfold SqliteQueuesStorage_close. rewrite Hc.
  reflexivity.
Qed.

(** On a closed manager [get_queue] finds no queue under any name, builds a
    [Queue], and [load_persistent_data] reads [get_items] of [None]: the
    object is dropped, nothing is registered. *)
Lemma QueuesManager_get_queue_closed w n :
  manager w = mkManager None [] ->
  QueuesManager_get_queue n w =
  (Raise AttributeError, set_queue_objs (fun h => h ++ [mkQueue n [] None]) w).
Proof.
  intros Hm. unfold QueuesManager_get_queue.
  erewrite bind_ret by reflexivity. rewrite Hm. cbn [queues dict_get].
  unfold Queue___init__.
  erewrite bind_raise; [reflexivity|].
  erewrite bind_ret by reflexivity.
  erewrite bind_raise; [reflexivity|].
  unfold Queue_load_persistent_data.
  erewrite bind_raise; [reflexivity|].
  apply manager_storage_None. cbn [manager set_queue_objs]. now rewrite Hm.
Qed.

Lemma get_queue_each_closed : forall ns w,
  manager w = mkManager None [] ->
  exists w',
    get_queue_each ns w = (Ret ((fun _ => Raise AttributeError) <$> ns), w') /\
    manager w' = manager w /\ database w' = database w /\ items w' = items w.
Proof.
  induction ns as [|n ns IH]; intros w Hm.
  - exists w. now repeat split.
  - pose proof (QueuesManager_get_queue_closed w n Hm) as Hrun.
    set (w1 := set_queue_objs (fun h => h ++ [mkQueue n [] None]) w) in *.
    destruct (IH w1 Hm) as (w' & Hrest & Hm' & Hd' & Hi').
    exists w'. split; [|now repeat split].
    cbn [get_queue_each fmap list_fmap].
    erewrite bind_attempt by exact Hrun.
    erewrite bind_ret by exact Hrest. reflexivity.
Qed.

(** C7, as the code has it: [close] on a manager whose storage is open
    returns, leaves no queue registered and no storage; every later
    [get_queue] raises [AttributeError] (the storage is [None]), registers
    nothing and leaves the table alone.  No statement of the module raises
    [ManagerClosedError]. *)
Theorem get_queue_after_close_raises_AttributeError w s ns :
  storage (manager w) = Some s ->
  conn_closed s = false ->
  exists w1 w2,
    QueuesManager_close w = (Ret tt, w1) /\
    manager w1 = mkManager None [] /\
    database w1 = database w /\
    get_queue_each ns w1 = (Ret ((fun _ => Raise AttributeError) <$> ns), w2) /\
    manager w2 = mkManager None [] /\
    database w2 = database w.
Proof.
  intros Hs Hc.
  set (w1 := set_manager (fun _ => mkManager None []) w).
  destruct (get_queue_each_closed ns w1 eq_refl) as (w2 & Hrun & Hm & Hd & _).
  exists w1, w2. split; [exact (QueuesManager_close_ok _ _ Hs Hc)|].
  repeat split; assumption.
Qed.

Lemma get_queue_after_close_raises_AttributeError_witness :
  exists w1 w2,
    QueuesManager_close one_persistent = (Ret tt, w1) /\
    manager w1 = mkManager None [] /\
    database w1 = database one_persistent /\
    get_queue_each ["jobs"; "mail"] w1
      = (Ret [Raise AttributeError; Raise AttributeError], w2) /\
    manager w2 = mkManager None [] /\
    database w2 = database one_persistent.
Proof.
  exact (get_queue_after_close_raises_AttributeError one_persistent
           (mkStorage false) ["jobs"; "mail"] eq_refl eq_refl).
Defined.

(** C7 as stated fails: after [close], [get_queue] of the queue that was
    registered raises [AttributeError], which is not [ManagerClosedError]. *)
Lemma get_queue_after_close_not_ManagerClosedError :
  fst ((QueuesManager_close ;; QueuesManager_get_queue "jobs") one_persistent)
    = Raise AttributeError /\
  @Raise addr AttributeError <> Raise ManagerClosedError.
Proof. split; [vm_compute; reflexivity | discriminate]. Qed.

(** ** The uuid column *)

Lemma int64_fits (z : Z) : fits_64_bits z <-> int64 z = true.
Proof.
  unfold int64, fits_64_bits. rewrite andb_true_iff, !Z.leb_le. reflexivity.
Qed.

Lemma SqliteQueuesStorage_push_ok w s rows n a it :
  sound s rows w -> items w !! a = Some it ->
  int64 (flags it) = true ->
  SqliteQueuesStorage_push s n a w =
  (Ret tt, set_database (Some (rows ++ [row_of_item n it])) w).
Proof.
  intros Hs Hit Hfl. unfold SqliteQueuesStorage_push.
  erewrite bind_ret by (apply get_item_ok; exact Hit).
  erewrite bind_ret; cycle 1.
  { unfold execute_insert. rewrite Hfl.
    destruct Hs as (Hc & Hs'). rewrite Hc.
    eapply execute_dml_ok. split; [exact Hc | exact Hs']. }
  unfold conn_commit. eapply sqlite_call_ok, sound_set_database, Hs.
Qed.

(** An int that does not fit 64 bits is refused when the parameters are
    bound: nothing is inserted. *)
Lemma SqliteQueuesStorage_push_overflow w s rows n a it :
  conn_closed s = false -> database w = Some rows ->
  items w !! a = Some it ->
  int64 (flags it) = false ->
  SqliteQueuesStorage_push s n a w = (Raise OverflowError, w).
Proof.
  intros Hc Hd Hit Hfl. unfold SqliteQueuesStorage_push.
  erewrite bind_ret by (apply get_item_ok; exact Hit).
  erewrite bind_raise; [reflexivity|].
  unfold execute_insert. rewrite Hfl, Hc.
  unfold gets, mbind, Py_bind. now rewrite Hd.
Qed.

Lemma run_deletes_unique us : forall rows,
  uuid_unique rows -> uuid_unique (run_deletes us rows).
Proof.
  unfold run_deletes.
  induction us as [|u us IH]; intros rows Hu; [exact Hu|].
  cbn [foldl]. apply IH. clear IH.
  unfold uuid_unique, sql_delete_uuid in *.
  induction rows as [|r rows IH]; [exact Hu|].
  cbn [fmap list_fmap] in Hu. apply NoDup_cons in Hu as [Hr Hnd].
  cbn [List.filter]. destruct (negb _); [|now apply IH].
  cbn [fmap list_fmap]. apply NoDup_cons. split; [|now apply IH].
  intros Hin. apply Hr.
  apply list_elem_of_fmap in Hin as (r' & -> & Hin).
  apply list_elem_of_fmap. exists r'. split; [reflexivity|].
  apply list_elem_of_In. apply list_elem_of_In, filter_In in Hin. tauto.
Qed.

Lemma run_updates_uuids its : forall rows,
  r_uuid <$> run_updates its rows = r_uuid <$> rows.
Proof.
  unfold run_updates.
  induction its as [|it its IH]; intros rows; [reflexivity|].
  cbn [foldl]. rewrite IH. clear IH.
  unfold sql_update_ttl. induction rows as [|r rows IH]; [reflexivity|].
  cbn [List.map fmap list_fmap] in *. rewrite IH. f_equal.
  now destruct (String.eqb (r_uuid r) (uuid it)).
Qed.

(** C8, as the code has it: the table [items] declares no constraint and
    [push] inserts its record whatever the table holds.  On a table with
    unique uuids and a storage whose calls succeed, [push] of an item whose
    flags fit 64 bits leaves the uuids unique exactly when the uuid of the
    pushed item is not yet stored; [delete_items] and [update_items_ttl], on
    lists of item objects, always leave them unique. *)
Theorem push_keeps_uuid_unique_iff_fresh w s rows n a it :
  sound s rows w ->
  items w !! a = Some it ->
  fits_64_bits (flags it) ->
  uuid_unique rows ->
  (exists w',
     SqliteQueuesStorage_push s n a w = (Ret tt, w') /\
     database w' =
       Some (rows ++ [Build_Row n (uuid it) (data it) (as_stored (ttl it))
                        (flags it)]) /\
     (uuid_unique (rows ++ [Build_Row n (uuid it) (data it) (as_stored (ttl it))
                              (flags it)])
      <-> uuid it ∉ r_uuid <$> rows)) /\
  (forall l, (forall b, b ∈ l -> is_Some (items w !! b)) ->
     exists w' rows',
       SqliteQueuesStorage_delete_items s (PyItem <$> l) w = (Ret tt, w') /\
       database w' = Some rows' /\ uuid_unique rows') /\
  (forall l, (forall b, b ∈ l -> is_Some (items w !! b)) ->
     exists w' rows',
       SqliteQueuesStorage_update_items_ttl s l w = (Ret tt, w') /\
       database w' = Some rows' /\ uuid_unique rows').
Proof.
  intros Hs Hit Hfl Hu. apply int64_fits in Hfl. split; [|split].
  - eexists. split; [exact (SqliteQueuesStorage_push_ok _ _ _ _ _ _ Hs Hit Hfl)|].
    split; [reflexivity|].
    unfold uuid_unique. rewrite fmap_app. cbn [fmap list_fmap r_uuid].
    rewrite NoDup_app. split.
    + intros (_ & Hdis & _) Hin. apply (Hdis _ Hin). now left.
    + intros Hfresh. split; [exact Hu|]. split.
      * intros x Hx Hx'. apply list_elem_of_singleton in Hx'. now subst.
      * apply NoDup_singleton.
  - intros l Hl. eexists _, _.
    split; [exact (SqliteQueuesStorage_delete_items_ok _ _ _ _ _ Hs
                     (objects_at_deref _ _ Hl))|].
    split; [reflexivity|]. now apply run_deletes_unique.
  - intros l Hl. eexists _, _.
    split; [exact (SqliteQueuesStorage_update_items_ttl_ok _ _ _ _ _ Hs
                     (objects_at_deref _ _ Hl))|].
    split; [reflexivity|]. unfold uuid_unique. now rewrite run_updates_uuids.
Qed.

Lemma push_keeps_uuid_unique_iff_fresh_witness :
  (exists w',
     SqliteQueuesStorage_push (mkStorage false) "jobs" 1%nat one_persistent_and_b
       = (Ret tt, w') /\
     database w' =
       Some [mkRow "jobs" "a" "x" 5%float FLAG_PERSISTENT;
             mkRow "jobs" "b" "y" 3%float FLAG_PERSISTENT] /\
     (uuid_unique [mkRow "jobs" "a" "x" 5%float FLAG_PERSISTENT;
                   mkRow "jobs" "b" "y" 3%float FLAG_PERSISTENT]
      <-> "b" ∉ r_uuid <$> [mkRow "jobs" "a" "x" 5%float FLAG_PERSISTENT])) /\
  (forall l, (forall b, b ∈ l -> is_Some (items one_persistent_and_b !! b)) ->
     exists w' rows',
       SqliteQueuesStorage_delete_items (mkStorage false) (PyItem <$> l)
         one_persistent_and_b = (Ret tt, w') /\
       database w' = Some rows' /\ uuid_unique rows') /\
  (forall l, (forall b, b ∈ l -> is_Some (items one_persistent_and_b !! b)) ->
     exists w' rows',
       SqliteQueuesStorage_update_items_ttl (mkStorage false) l
         one_persistent_and_b = (Ret tt, w') /\
       database w' = Some rows' /\ uuid_unique rows').
Proof.
  apply (push_keeps_uuid_unique_iff_fresh one_persistent_and_b
           (mkStorage false)
           [mkRow "jobs" "a" "x" 5%float FLAG_PERSISTENT]
           "jobs" 1%nat (mkItem "b" "y" 3%float FLAG_PERSISTENT)).
  - now repeat split.
  - reflexivity.
  - cbv. split; intros H; discriminate H.
  - apply NoDup_singleton.
Defined.

(** C8 as stated fails: from the empty table, the same item pushed onto two
    queues leaves two records with the uuid a. *)
Lemma push_twice_duplicates_uuid :
  exists w',
    (start_manager ;;
     jobs ← QueuesManager_get_queue "jobs";
     mail ← QueuesManager_get_queue "mail";
     a ← new_item (mkItem "a" "x" 5%float FLAG_PERSISTENT);
     Queue_push jobs a ;;
     Queue_push mail a) (boot None [] 0%float) = (Ret tt, w') /\
    database w' =
      Some [mkRow "jobs" "a" "x" 5%float FLAG_PERSISTENT;
            mkRow "mail" "a" "x" 5%float FLAG_PERSISTENT] /\
    ~ uuid_unique [mkRow "jobs" "a" "x" 5%float FLAG_PERSISTENT;
                   mkRow "mail" "a" "x" 5%float FLAG_PERSISTENT].
Proof.
  eexists. split; [vm_compute; reflexivity|]. split; [reflexivity|].
  unfold uuid_unique. cbn [fmap list_fmap r_uuid]. intros Hnd.
  apply NoDup_cons in Hnd as [Hnotin _]. apply Hnotin. now left.
Qed.

(** ** What a reader sees *)

Lemma Queue_push_ok w self q s rows a it :
  queue_objs w !! self = Some q ->
  storage (manager w) = Some s ->
  sound s rows w ->
  items w !! a = Some it ->
  int64 (flags it) = true ->
  Queue_push self a w =
  (Ret tt,
   (if persistent it
    then set_database (Some (rows ++ [row_of_item (name q) it]))
    else fun w => w)
     (set_queue_objs (alter (set_queue (queue q ++ [a])) self) w)).
Proof.
  intros Hq Hst Hs Hit Hfl. unfold Queue_push.
  rewrite (bind_ret _ _ _ _ _ (get_queue_obj_ok _ _ _ Hq)).
  erewrite bind_ret by reflexivity.
  erewrite bind_ret by (apply get_item_ok; exact Hit).
  destruct (persistent it); [|reflexivity].
  erewrite bind_ret by (apply manager_storage_ok; exact Hst).
  eapply SqliteQueuesStorage_push_ok; [|exact Hit|exact Hfl].
  apply sound_set_queue_objs, Hs.
Qed.

(** [push] of a persistent item whose flags do not fit 64 bits: the item is
    in the sequence, [storage.push] raises and no record is written. *)
Lemma Queue_push_overflow w self q s rows a it :
  queue_objs w !! self = Some q ->
  storage (manager w) = Some s ->
  conn_closed s = false ->
  database w = Some rows ->
  items w !! a = Some it ->
  persistent it = true ->
  int64 (flags it) = false ->
  Queue_push self a w =
  (Raise OverflowError,
   set_queue_objs (alter (set_queue (queue q ++ [a])) self) w).
Proof.
  intros Hq Hst Hc Hd Hit Hp Hfl. unfold Queue_push.
  rewrite (bind_ret _ _ _ _ _ (get_queue_obj_ok _ _ _ Hq)).
  erewrite bind_ret by reflexivity.
  erewrite bind_ret by (apply get_item_ok; exact Hit).
  rewrite Hp.
  erewrite bind_ret by (apply manager_storage_ok; exact Hst).
  eapply SqliteQueuesStorage_push_overflow;
    [exact Hc | exact Hd | exact Hit | exact Hfl].
Qed.

(** The record that [push] leaves in the table, if any. *)
Lemma Queue_push_sound w self q s rows a it :
  queue_objs w !! self = Some q ->
  storage (manager w) = Some s ->
  sound s rows w ->
  items w !! a = Some it ->
  exists o,
    Queue_push self a w =
    (o,
     set_database
       (Some (if persistent it && int64 (flags it)
              then rows ++ [row_of_item (name q) it] else rows))
       (set_queue_objs (alter (set_queue (queue q ++ [a])) self) w)).
Proof.
  intros Hq Hst Hs Hit.
  destruct (int64 (flags it)) eqn:Hfl.
  - exists (Ret tt). rewrite (Queue_push_ok _ _ _ _ _ _ _ Hq Hst Hs Hit Hfl).
    destruct (persistent it); cbn [andb]; [reflexivity|].
    rewrite set_database_same; [reflexivity | apply Hs].
  - destruct (persistent it) eqn:Hp; cbn [andb].
    + exists (Raise OverflowError).
      rewrite (Queue_push_overflow _ _ _ _ _ _ _ Hq Hst (proj1 Hs)
                 (proj1 (proj2 Hs)) Hit Hp Hfl).
      rewrite set_database_same; [reflexivity | apply Hs].
    + exists (Ret tt). unfold Queue_push.
      rewrite (bind_ret _ _ _ _ _ (get_queue_obj_ok _ _ _ Hq)).
      erewrite bind_ret by reflexivity.
      erewrite bind_ret by (apply get_item_ok; exact Hit).
      rewrite Hp. rewrite set_database_same; [reflexivity | apply Hs].
Qed.

Lemma NoDup_List_filter {A : Type} (p : A -> bool) (l : list A) :
  NoDup l -> NoDup (List.filter p l).
Proof.
  induction l as [|x l IH]; intros Hnd; [exact Hnd|].
  apply NoDup_cons in Hnd as [Hx Hnd]. cbn [List.filter].
  destruct (p x); [|now apply IH].
  apply NoDup_cons. split; [|now apply IH].
  intros Hin. apply Hx.
  apply list_elem_of_In. apply list_elem_of_In, filter_In in Hin. tauto.
Qed.

Lemma sound_connected s rows diff self q w :
  sound s rows w ->
  exists rows', sound s rows' (connected diff self q rows w).
Proof. intros (Hc & Hd & Hf). eexists. now repeat split. Qed.

Lemma aged_float_ttl diff it : float_ttl it -> float_ttl (aged diff it).
Proof. intros [t Ht]. unfold aged, float_ttl. rewrite Ht. now eexists. Qed.

Lemma age_float_ttl diff a : forall l h,
  (exists it, h !! a = Some it /\ float_ttl it) ->
  exists it, age diff l h !! a = Some it /\ float_ttl it.
Proof.
  induction l as [|b l IH]; intros h Ha; [exact Ha|].
  cbn [age]. apply IH. destruct Ha as (it & Hit & Hf).
  destruct (decide (b = a)) as [->|Hne].
  - exists (aged diff it). rewrite list_lookup_alter_eq, Hit.
    split; [reflexivity | now apply aged_float_ttl].
  - exists it. now rewrite list_lookup_alter_ne.
Qed.

Lemma readable_step self c cs recent w :
  readable self recent (pushed (c :: cs)) w ->
  exists o w',
    run_call self c w = (o, w') /\
    readable self (recent_step c recent) (pushed cs) w'.
Proof.
  intros (q & s & rows & Hq & Hlda & Hst & Hs & Hnd & Hv & Hal).
  destruct c as [a| | | | |t]; cbn [pushed run_call recent_step] in *.
  - (* push *)
    destruct (Hv a) as (it & Hit & _); [apply elem_of_app; right; left|].
    destruct (Queue_push_sound _ _ _ _ _ _ _ Hq Hst Hs Hit) as [o Hpush].
    eexists _, _. split; [exact Hpush|].
    exists (set_queue (queue q ++ [a]) q), s.
    assert (Hq' : alter (set_queue (queue q ++ [a])) self (queue_objs w) !! self
                  = Some (set_queue (queue q ++ [a]) q))
      by now rewrite list_lookup_alter_eq, Hq.
    assert (Hnd' : NoDup ((queue q ++ [a]) ++ pushed cs))
      by now rewrite <- app_assoc.
    assert (Hv' : forall b, b ∈ (queue q ++ [a]) ++ pushed cs ->
                            exists it', items w !! b = Some it' /\ float_ttl it')
      by (intros b; rewrite <- app_assoc; apply Hv).
    assert (Hal' : forall b it', b ∈ queue q ++ [a] -> items w !! b = Some it' ->
                     alive it' = true \/ b ∈ recent ++ [a]).
    { intros b it' Hb Hit'. apply elem_of_app in Hb as [Hb|Hb].
      - destruct (Hal _ _ Hb Hit') as [?|?]; [now left|].
        right. apply elem_of_app. now left.
      - right. apply elem_of_app. now right. }
    eexists. repeat split; try eassumption; try apply Hs.
  - (* get *)
    eexists _, _. split.
    { erewrite bind_ret by (apply Queue_get_ok; exact Hq). reflexivity. }
    exists q, s, rows. repeat split; try assumption; apply Hs.
  - (* pop *)
    destruct (queue q) as [|a l] eqn:He.
    + eexists _, _. split; [exact (Queue_pop_empty _ _ _ Hq He)|].
      exists q, s, rows. rewrite He. repeat split; try assumption; apply Hs.
    + destruct (Hv a) as (it & Hit & _); [left|].
      assert (Hpop : exists o, Queue_pop self w =
                (o, set_queue_objs (alter (set_queue l) self) w)).
      { destruct (persistent it) eqn:Hp.
        - eexists. exact (Queue_pop_persistent _ _ _ _ _ _ Hq He Hit Hp).
        - eexists. exact (Queue_pop_transient _ _ _ _ _ _ Hq He Hit Hp). }
      destruct Hpop as [o Hpop]. eexists _, _. split; [exact Hpop|].
      exists (set_queue l q), s, rows.
      cbn [app] in Hnd. apply NoDup_cons in Hnd as [_ Hnd].
      split; [cbn; now rewrite list_lookup_alter_eq, Hq|].
      repeat split; try assumption; try apply Hs.
      * intros b Hb. apply Hv. now right.
      * intros b it' Hb Hit'. apply (Hal b it'); [now right | exact Hit'].
  - (* connect *)
    destruct Hlda as [t0 Ht0].
    apply NoDup_app in Hnd as (Hndq & Hdis & Hndp).
    assert (Hwf : queue_wf w q).
    { split; [exact Hndq|]. intros a Ha. apply Hv, elem_of_app. now left. }
    eexists _, _.
    split; [exact (Queue_connect_ok _ _ _ _ _ _ Hq Ht0 Hst Hs Hwf)|].
    set (diff := PrimFloat.sub (clock w) t0).
    set (h' := age diff (queue q) (items w)).
    destruct (sound_connected s rows diff self q w Hs) as [rows' Hs'].
    exists (set_queue (survivors h' (queue q)) q), s, rows'.
    assert (Hsub : forall a, a ∈ survivors h' (queue q) ->
                     a ∈ queue q /\ survives h' a = true).
    { intros a Ha. apply list_elem_of_In, filter_In in Ha as [Ha Hsv].
      split; [now apply list_elem_of_In | exact Hsv]. }
    split; [rewrite connected_queue_objs, list_lookup_alter_eq, Hq; reflexivity|].
    split; [now exists t0|]. split; [exact Hst|]. split; [exact Hs'|].
    cbn [queue set_queue]. rewrite connected_items. fold h'.
    split; [|split].
    + apply NoDup_app. split; [now apply NoDup_List_filter|].
      split; [|exact Hndp]. intros a Ha. apply Hdis. now apply Hsub.
    + intros a Ha. subst h'. apply age_float_ttl, Hv.
      apply elem_of_app in Ha as [Ha|Ha]; apply elem_of_app;
        [left; now apply Hsub | now right].
    + intros a it Ha Hit. left. apply Hsub in Ha as [_ Hsv].
      unfold survives in Hsv. now rewrite Hit in Hsv.
  - (* disconnect *)
    eexists _, _. split; [exact (Queue_disconnect_ok _ _ _ Hq)|].
    exists (set_last_disconnect_absolute (Some (clock w)) q), s, rows.
    split; [cbn; now rewrite list_lookup_alter_eq, Hq|].
    split; [now eexists|]. repeat split; try assumption; apply Hs.
  - (* time passes *)
    eexists _, _. split; [reflexivity|].
    exists q, s, rows. repeat split; try assumption; apply Hs.
Qed.

Lemma readable_run self : forall cs recent w,
  readable self recent (pushed cs) w ->
  exists w',
    run_calls self cs w = (Ret tt, w') /\
    readable self (pushed_since_connect cs recent) [] w'.
Proof.
  induction cs as [|c cs IH]; intros recent w Hinv.
  - exists w. split; [reflexivity | exact Hinv].
  - destruct (readable_step _ _ _ _ _ Hinv) as (o & w1 & Hrun & Hinv1).
    destruct (IH _ _ Hinv1) as (w' & Hrest & Hinv').
    exists w'. split; [|exact Hinv'].
    unfold run_calls in *. cbn [for_each].
    erewrite bind_ret; [exact Hrest|].
    erewrite bind_attempt by exact Hrun. reflexivity.
Qed.


(** ** Loading a queue from the storage *)

Lemma new_items_ok : forall rows w,
  new_items rows w =
  (Ret (seq (length (items w)) (length rows)),
   set_items (fun _ => items w ++ (item_of_row <$> rows)) w).
Proof.
  induction rows as [|r rows IH]; intros w.
  - cbn. rewrite app_nil_r. now destruct w.
  - cbn [new_items]. unfold new_item. erewrite bind_ret by reflexivity.
    erewrite bind_ret by apply IH.
    cbn [mret Py_ret items set_items length seq fmap list_fmap].
    rewrite length_app, Nat.add_1_r, <- app_assoc. reflexivity.
Qed.

Lemma SqliteQueuesStorage_get_items_ok s rows n w :
  sound s rows w ->
  SqliteQueuesStorage_get_items s n w =
  (Ret (seq (length (items w)) (length (sql_where_queue_name n rows))),
   set_items
     (fun _ => items w ++ (item_of_row <$> sql_where_queue_name n rows)) w).
Proof.
  intros Hs. unfold SqliteQueuesStorage_get_items.
  erewrite bind_ret by (eapply execute_select_ok; exact Hs).
  apply new_items_ok.
Qed.

Lemma alter_snoc {A : Type} (f : A -> A) (l : list A) (x : A) :
  alter f (length l) (l ++ [x]) = l ++ [f x].
Proof.
  induction l as [|y l IH]; [reflexivity|].
  cbn [length app]. change (y :: alter f (length l) (l ++ [x]) = y :: l ++ [f x]).
  now rewrite IH.
Qed.

Lemma lookup_snoc {A : Type} (l : list A) (x : A) :
  (l ++ [x]) !! length l = Some x.
Proof. now apply list_lookup_middle. Qed.

Lemma Queue___init___ok s rows n w :
  storage (manager w) = Some s ->
  sound s rows w ->
  Queue___init__ n w = (Ret (length (queue_objs w)), with_loaded_queue n rows w).
Proof.
  intros Hst Hs. unfold Queue___init__, new_queue_obj.
  erewrite bind_ret by reflexivity.
  set (w1 := set_queue_objs (fun h => h ++ [mkQueue n [] None]) w).
  assert (Hq1 : queue_objs w1 !! length (queue_objs w) = Some (mkQueue n [] None))
    by apply lookup_snoc.
  erewrite bind_ret; cycle 1.
  { unfold Queue_load_persistent_data.
    erewrite bind_ret by (apply manager_storage_ok; exact Hst).
    rewrite (bind_ret _ _ _ _ _ (get_queue_obj_ok _ _ _ Hq1)).
    erewrite bind_ret
      by (eapply SqliteQueuesStorage_get_items_ok, sound_set_queue_objs, Hs).
    reflexivity. }
  erewrite bind_ret; cycle 1.
  { unfold Queue_disconnect, time_time.
    erewrite bind_ret by reflexivity.
    erewrite bind_ret; cycle 1.
    { apply get_queue_obj_ok. cbn [queue_objs set_queue_objs set_items w1].
      rewrite alter_snoc. apply lookup_snoc. }
    reflexivity. }
  cbn [mret Py_ret]. f_equal. unfold with_loaded_queue, modify.
  subst w1. unfold set_queue_objs, set_items.
  cbn [queue_objs items manager database faults clock name].
  now rewrite !alter_snoc.
Qed.

Lemma dict_get_set k k' v d :
  dict_get k (dict_set k' v d) =
  if String.eqb k' k then Some v else dict_get k d.
Proof.
  induction d as [|[k0 v0] d IH]; cbn [dict_set dict_get].
  - now destruct (String.eqb k' k).
  - destruct (String.eqb k0 k') eqn:E0; cbn [dict_get].
    + apply String.eqb_eq in E0 as ->. now destruct (String.eqb k' k).
    + destruct (String.eqb k0 k) eqn:E1; [|exact IH].
      apply String.eqb_eq in E1 as ->.
      rewrite String.eqb_sym in E0. now rewrite E0.
Qed.

Lemma QueuesManager_get_queue_known n qa w :
  dict_get n (queues (manager w)) = Some qa ->
  QueuesManager_get_queue n w = (Ret qa, w).
Proof.
  intros Hd. unfold QueuesManager_get_queue.
  erewrite bind_ret by reflexivity. now rewrite Hd.
Qed.

Lemma QueuesManager_get_queue_new s rows n w :
  dict_get n (queues (manager w)) = None ->
  storage (manager w) = Some s ->
  sound s rows w ->
  QueuesManager_get_queue n w =
  (Ret (length (queue_objs w)),
   set_manager (set_queues (dict_set n (length (queue_objs w))))
     (with_loaded_queue n rows w)).
Proof.
  intros Hd Hst Hs. unfold QueuesManager_get_queue.
  erewrite bind_ret by reflexivity. rewrite Hd.
  erewrite bind_ret by (eapply Queue___init___ok; eassumption).
  reflexivity.
Qed.

Lemma objects_at_app_l h h' l its :
  objects_at h l its -> objects_at (h ++ h') l its.
Proof.
  unfold objects_at. intros H. eapply Forall2_impl; [exact H|].
  intros a it Ha. now apply lookup_app_l_Some.
Qed.

Lemma objects_at_seq h : forall its,
  objects_at (h ++ its) (seq (length h) (length its)) its.
Proof.
  intros its. revert h.
  induction its as [|it its IH]; intros h; [constructor|].
  cbn [length seq]. constructor.
  - now apply list_lookup_middle.
  - specialize (IH (h ++ [it])).
    rewrite length_app, Nat.add_1_r, <- app_assoc in IH. exact IH.
Qed.

Lemma QueuesManager_get_queue_loaded s rows n w :
  storage (manager w) = Some s ->
  sound s rows w ->
  loaded rows (clock w) w ->
  exists qa w',
    QueuesManager_get_queue n w = (Ret qa, w') /\
    dict_get n (queues (manager w')) = Some qa /\
    storage (manager w') = Some s /\
    sound s rows w' /\
    clock w' = clock w /\
    loaded rows (clock w) w'.
Proof.
  intros Hst Hs Hl.
  destruct (dict_get n (queues (manager w))) as [qa|] eqn:Hd.
  - exists qa, w. split; [now apply QueuesManager_get_queue_known|].
    now repeat split; try apply Hs.
  - eexists _, _.
    split; [exact (QueuesManager_get_queue_new _ _ _ _ Hd Hst Hs)|].
    cbn [manager set_manager set_queues queues storage with_loaded_queue
         set_queue_objs set_items clock].
    split; [rewrite dict_get_set; now rewrite String.eqb_refl|].
    split; [exact Hst|]. split; [repeat split; apply Hs|].
    split; [reflexivity|].
    intros m qa Hm.
    cbn [manager set_manager set_queues queues queue_objs items
         set_queue_objs set_items] in *.
    rewrite dict_get_set in Hm. destruct (String.eqb n m) eqn:E.
    + apply String.eqb_eq in E as <-. inversion Hm; subst qa.
      eexists. split; [apply lookup_snoc|]. split; [apply NoDup_seq|].
      rewrite <- (length_fmap item_of_row). apply objects_at_seq.
    + destruct (Hl _ _ Hm) as (l & Hq & Hnd & Ho).
      exists l. split; [now apply lookup_app_l_Some|].
      split; [exact Hnd | now apply objects_at_app_l].
Qed.

Lemma objects_at_elem h l its it :
  objects_at h l its -> it ∈ its -> exists a, a ∈ l /\ h !! a = Some it.
Proof.
  induction 1 as [|a x l its Ha _ IH]; intros Hin.
  - now apply elem_of_nil in Hin.
  - apply elem_of_cons in Hin as [->|Hin].
    + exists a. split; [left | exact Ha].
    + destruct (IH Hin) as (b & Hb & Hhb). exists b. split; [now right | exact Hhb].
Qed.

Lemma load_names_ok s rows : forall names w,
  storage (manager w) = Some s ->
  sound s rows w ->
  loaded rows (clock w) w ->
  exists w',
    for_each names
      (fun queue_name => _ ← QueuesManager_get_queue queue_name; mret tt) w
      = (Ret tt, w') /\
    storage (manager w') = Some s /\
    sound s rows w' /\
    clock w' = clock w /\
    loaded rows (clock w) w'.
Proof.
  induction names as [|n names IH]; intros w Hst Hs Hl.
  - exists w. now repeat split; try apply Hs.
  - destruct (QueuesManager_get_queue_loaded s rows n w Hst Hs Hl)
      as (qa & w1 & Hrun & _ & Hst1 & Hs1 & Hc1 & Hl1).
    rewrite <- Hc1 in Hl1.
    destruct (IH w1 Hst1 Hs1 Hl1) as (w' & Hrest & Hst' & Hs' & Hc' & Hl').
    exists w'. split; [|rewrite <- Hc1; now repeat (split; [assumption|])].
    cbn [for_each]. erewrite bind_ret; [exact Hrest|].
    erewrite bind_ret by exact Hrun. reflexivity.
Qed.

(** A manager started on a file that holds the table [rows] has loaded
    every queue it registers, at the time of the start. *)
Lemma start_manager_ok rows w :
  sound (mkStorage false) rows w ->
  exists w',
    start_manager w = (Ret tt, w') /\
    storage (manager w') = Some (mkStorage false) /\
    sound (mkStorage false) rows w' /\
    clock w' = clock w /\
    loaded rows (clock w) w'.
Proof.
  intros Hs. set (s := mkStorage false) in *.
  set (w0 := set_manager (fun _ => mkManager (Some s) []) w).
  assert (Hs0 : sound s rows w0) by (repeat split; apply Hs).
  destruct (load_names_ok s rows (sql_group_names rows) w0 eq_refl Hs0)
    as (w' & Hrun & Hst' & Hs' & Hc' & Hl').
  { intros n qa Hd. discriminate Hd. }
  exists w'. split; [|repeat (split; [assumption|]); assumption].
  unfold start_manager, SqliteQueuesStorage___init__. fold s.
  assert (Hinit : (SqliteQueuesStorage_test_format s ;;
                   SqliteQueuesStorage_sweep s ;; mret s) w = (Ret s, w)).
  { unfold SqliteQueuesStorage_test_format, SqliteQueuesStorage_sweep, conn_commit.
    erewrite bind_ret; cycle 1.
    { erewrite bind_ret by (eapply sqlite_call_ok; exact Hs).
      destruct Hs as (_ & Hd & _).
      unfold gets, mbind, Py_bind. rewrite Hd. reflexivity. }
    erewrite bind_ret; [reflexivity|].
    erewrite bind_ret by (eapply sqlite_call_ok; exact Hs).
    eapply sqlite_call_ok; exact Hs. }
  erewrite bind_ret by exact Hinit.
  unfold QueuesManager___init__. erewrite bind_ret by reflexivity. fold w0.
  unfold QueuesManager_load_from_storage.
  erewrite bind_ret by (apply manager_storage_ok; reflexivity).
  erewrite bind_ret
    by (unfold SqliteQueuesStorage_get_queues; eapply execute_select_ok; exact Hs0).
  exact Hrun.
Qed.

Lemma item_of_row_of_item n it :
  item_of_row (row_of_item n it) = reloaded it.
Proof. reflexivity. Qed.

Lemma objects_at_Forall (P : Item -> Prop) h l its :
  objects_at h l its -> Forall P its ->
  forall a, a ∈ l -> exists it, h !! a = Some it /\ P it.
Proof.
  induction 1 as [|a x l its Ha _ IH]; intros HP b Hb.
  - now apply elem_of_nil in Hb.
  - apply Forall_cons in HP as [Hx HP].
    apply elem_of_cons in Hb as [->|Hb]; [now exists x | now apply IH].
Qed.

(** C5, as the code has it: on a sound storage a persistent item whose
    flags fit 64 bits is pushed, and its record holds the ttl it has then,
    as the column keeps it ([None] for NaN, 0.0 for a zero of either sign).
    After [close] right then and a fresh manager on the same file at time [t],
    [get_queue] of the queue's name gives a queue that holds an item with
    the same uuid, data, flags and the ttl as stored: no time is taken off at
    the load.  The queue is disconnected since [t]; when the stored ttls are
    numbers, its [connect] at time [t'] takes [t' - t] off the ttl. *)
Theorem persistent_item_reloaded_with_stored_ttl w self q s rows a it t t' :
  queue_objs w !! self = Some q ->
  storage (manager w) = Some s ->
  sound s rows w ->
  items w !! a = Some it ->
  persistent it = true ->
  fits_64_bits (flags it) ->
  exists w1 w2 w3 qa q' a',
    Queue_push self a w = (Ret tt, w1) /\
    QueuesManager_close w1 = (Ret tt, w2) /\
    (start_manager ;; QueuesManager_get_queue (name q))
      (boot (database w2) [] t) = (Ret qa, w3) /\
    queue_objs w3 !! qa = Some q' /\
    name q' = name q /\
    last_disconnect_absolute q' = Some t /\
    a' ∈ queue q' /\
    items w3 !! a' =
      Some (Build_Item (uuid it) (data it) (as_stored (ttl it)) (flags it)) /\
    (Forall (fun r => is_Some (r_ttl r)) rows ->
     forall t0, as_stored (ttl it) = Some t0 ->
     exists w4,
       (sleep_until t' ;; Queue_connect qa) w3 = (Ret tt, w4) /\
       items w4 !! a' =
         Some (mkItem (uuid it) (data it)
                 (PrimFloat.sub t0 (PrimFloat.sub t' t)) (flags it))).
Proof.
  intros Hq Hst Hs Hit Hp Hfl. apply int64_fits in Hfl.
  pose proof (Queue_push_ok _ _ _ _ _ _ _ Hq Hst Hs Hit Hfl) as Hpush.
  rewrite Hp in Hpush.
  set (row := row_of_item (name q) it) in *.
  set (w1 := set_database (Some (rows ++ [row])) _) in Hpush.
  pose proof (QueuesManager_close_ok w1 s Hst (proj1 Hs)) as Hclose.
  set (w2 := set_manager _ w1) in Hclose.
  set (s0 := mkStorage false).
  assert (Hs0 : sound s0 (rows ++ [row]) (boot (database w2) [] t))
    by now repeat split.
  destruct (start_manager_ok _ _ Hs0) as (w3' & Hstart & Hst3 & Hs3 & Hc3 & Hl3).
  rewrite <- Hc3 in Hl3.
  destruct (QueuesManager_get_queue_loaded s0 _ (name q) w3' Hst3 Hs3 Hl3)
    as (qa & w3 & Hget & Hd & Hst3' & Hs3' & Hc3' & Hl3').
  destruct (Hl3' _ _ Hd) as (l & Hq' & Hnd & Ho).
  rewrite Hc3 in Hq'. cbn [clock boot] in Hq'.
  assert (Hin : reloaded it ∈
                item_of_row <$> sql_where_queue_name (name q) (rows ++ [row])).
  { rewrite <- (item_of_row_of_item (name q) it). fold row.
    apply list_elem_of_fmap_2, list_elem_of_In, filter_In. split.
    - apply in_or_app. right. now left.
    - apply String.eqb_refl. }
  destruct (objects_at_elem _ _ _ _ Ho Hin) as (a' & Ha' & Hit').
  exists w1, w2, w3, qa, (mkQueue (name q) l (Some t)), a'.
  split; [exact Hpush|]. split; [exact Hclose|].
  split; [erewrite bind_ret by exact Hstart; exact Hget|].
  split; [exact Hq'|]. split; [reflexivity|]. split; [reflexivity|].
  split; [exact Ha'|]. split; [exact Hit'|].
  intros Hrows t0 Ht0.
  assert (Hwf : queue_wf (set_clock t' w3) (mkQueue (name q) l (Some t))).
  { split; [exact Hnd|].
    apply (objects_at_Forall float_ttl _ _ _ Ho).
    apply Forall_fmap, Forall_forall. intros r Hr.
    apply list_elem_of_In, filter_In in Hr as [Hr _].
    apply in_app_or in Hr as [Hr|[<-|[]]].
    - apply list_elem_of_In in Hr.
      exact (proj1 (Forall_forall _ _) Hrows r Hr).
    - change (is_Some (as_stored (ttl it))). rewrite Ht0. now eexists. }
  assert (Hs4 : sound s0 (rows ++ [row]) (set_clock t' w3))
    by now apply sound_set_clock.
  eexists. split.
  - unfold sleep_until. erewrite bind_ret by reflexivity.
    exact (Queue_connect_ok (set_clock t' w3) _ _ _ _ _ Hq' eq_refl Hst3' Hs4 Hwf).
  - rewrite connected_items. cbn [queue items set_clock clock].
    rewrite age_lookup_in by assumption. rewrite Hit'.
    cbn [fmap option_fmap option_map]. f_equal.
    now apply (aged_float _ (reloaded it)).
Qed.

Lemma persistent_item_reloaded_with_stored_ttl_witness :
  exists w1 w2 w3 qa q' a',
    Queue_push 0%nat 1%nat one_persistent_and_b = (Ret tt, w1) /\
    QueuesManager_close w1 = (Ret tt, w2) /\
    (start_manager ;; QueuesManager_get_queue "jobs")
      (boot (database w2) [] 200%float) = (Ret qa, w3) /\
    queue_objs w3 !! qa = Some q' /\
    name q' = "jobs" /\
    last_disconnect_absolute q' = Some 200%float /\
    a' ∈ queue q' /\
    items w3 !! a' = Some (mkItem "b" "y" 3%float FLAG_PERSISTENT) /\
    exists w4,
      (sleep_until 201%float ;; Queue_connect qa) w3 = (Ret tt, w4) /\
      items w4 !! a' = Some (mkItem "b" "y" 2%float FLAG_PERSISTENT).
Proof.
  destruct (persistent_item_reloaded_with_stored_ttl one_persistent_and_b 0%nat
              (mkQueue "jobs" [0%nat] (Some 0%float)) (mkStorage false)
              [mkRow "jobs" "a" "x" 5%float FLAG_PERSISTENT] 1%nat
              (mkItem "b" "y" 3%float FLAG_PERSISTENT) 200%float 201%float
              eq_refl eq_refl (conj eq_refl (conj eq_refl eq_refl))
              eq_refl eq_refl
              ltac:(cbv; split; intros H; discriminate H))
    as (w1 & w2 & w3 & qa & q' & a' & H1 & H2 & H3 & H4 & H5 & H6 & H7 & H8 & H9).
  exists w1, w2, w3, qa, q', a'.
  repeat (split; [assumption|]).
  assert (Hrows : Forall (fun r => is_Some (r_ttl r))
                     [mkRow "jobs" "a" "x" 5%float FLAG_PERSISTENT])
    by (repeat constructor; now eexists).
  exact (H9 Hrows 3%float eq_refl).
Defined.

(** C5 as stated fails: the queue is disconnected from time 50 on, the
    manager is closed at 100 and the second process starts at 200.  It finds
    the item with ttl 10: neither the 150 since the last disconnect nor the
    50 of disconnected time before the close are taken off. *)
Lemma reloaded_ttl_is_not_decremented :
  exists w1 w2 a,
    first_process (boot None [] 0%float) = (Ret tt, w1) /\
    second_process (boot (database w1) [] 200%float) = (Ret (Some a), w2) /\
    items w2 !! a = Some (mkItem "a" "x" 10%float FLAG_PERSISTENT) /\
    PrimFloat.eqb 10%float
      (PrimFloat.sub 10%float (PrimFloat.sub 200%float 50%float)) = false /\
    PrimFloat.eqb 10%float
      (PrimFloat.sub 10%float (PrimFloat.sub 100%float 50%float)) = false.
Proof.
  eexists _, _, _. split; [vm_compute; reflexivity|].
  split; [vm_compute; reflexivity|]. repeat split; reflexivity.
Qed.

(** * Further properties of the module *)

(** ** The storage on its own *)

(** X1: [flags & FLAG_PERSISTENT] looks at the lowest bit of [flags] only:
    an item is persistent exactly when its flags are odd, whatever the
    other bits are. *)
Theorem persistent_is_lowest_bit (it : Item) :
  persistent it = Z.odd (flags it).
Proof.
  unfold persistent, FLAG_PERSISTENT.
  change 1 with (Z.ones 1). rewrite Z.land_ones by lia.
  change (2 ^ 1) with 2. rewrite Zmod_odd.
  now destruct (Z.odd (flags it)).
Qed.

Lemma sqlite_call_quiet s w :
  faults w = [] -> conn_closed s = false -> sqlite_call s w = (Ret tt, w).
Proof. intros Hf Hc. unfold sqlite_call. now rewrite Hc, Hf. Qed.

(** X2: opening the storage on a medium without fault returns an open
    connection; a file without the table [items] gets an empty one, a file
    with the table keeps its records as they are, and no object of the
    process is touched.  Opening again changes nothing. *)
Theorem storage_open_creates_or_keeps_table (w : World) :
  faults w = [] ->
  exists w',
    SqliteQueuesStorage___init__ w = (Ret (mkStorage false), w') /\
    database w' =
      Some (match database w with Some rows => rows | None => [] end) /\
    same_objects w w' /\ faults w' = [] /\
    SqliteQueuesStorage___init__ w' = (Ret (mkStorage false), w').
Proof.
  intros Hf.
  assert (Hopen : forall rows w0, faults w0 = [] -> database w0 = Some rows ->
            SqliteQueuesStorage___init__ w0 = (Ret (mkStorage false), w0)).
  { intros rows w0 Hf0 Hd0.
    unfold SqliteQueuesStorage___init__, SqliteQueuesStorage_test_format,
      SqliteQueuesStorage_sweep, conn_commit.
    erewrite bind_ret; cycle 1.
    { erewrite bind_ret by (now apply sqlite_call_quiet).
      unfold gets, mbind, Py_bind. rewrite Hd0. reflexivity. }
    erewrite bind_ret; [reflexivity|].
    erewrite bind_ret by (now apply sqlite_call_quiet).
    now apply sqlite_call_quiet. }
  destruct (database w) as [rows|] eqn:Hd.
  - exists w. split; [now apply (Hopen rows)|]. split; [exact Hd|].
    split; [apply same_objects_refl|]. split; [exact Hf|]. now apply (Hopen rows).
  - exists (set_database (Some []) w).
    split; [|split; [reflexivity|split; [now repeat split|split; [exact Hf|]]]].
    + unfold SqliteQueuesStorage___init__, SqliteQueuesStorage_test_format,
        SqliteQueuesStorage_prepare_format, SqliteQueuesStorage_sweep, conn_commit.
      erewrite bind_ret; cycle 1.
      { erewrite bind_ret by (now apply sqlite_call_quiet).
        unfold gets at 1, mbind at 1, Py_bind at 1. rewrite Hd.
        erewrite bind_ret by (now apply sqlite_call_quiet).
        erewrite bind_ret by reflexivity.
        now apply sqlite_call_quiet. }
      erewrite bind_ret; [reflexivity|].
      erewrite bind_ret by (now apply sqlite_call_quiet).
      now apply sqlite_call_quiet.
    + now apply (Hopen []).
Qed.

Lemma storage_open_creates_or_keeps_table_witness :
  exists w',
    SqliteQueuesStorage___init__ (boot None [] 0%float)
      = (Ret (mkStorage false), w') /\
    database w' = Some [] /\
    same_objects (boot None [] 0%float) w' /\ faults w' = [] /\
    SqliteQueuesStorage___init__ w' = (Ret (mkStorage false), w').
Proof.
  exact (storage_open_creates_or_keeps_table (boot None [] 0%float) eq_refl).
Defined.

Lemma existsb_uuid (u : string) (its : list Item) :
  existsb (fun it => String.eqb u (uuid it)) its = true <-> u ∈ uuid <$> its.
Proof.
  rewrite existsb_exists, list_elem_of_fmap. split.
  - intros (it & Hin & He). apply String.eqb_eq in He.
    exists it. split; [exact He | now apply list_elem_of_In].
  - intros (it & -> & Hin). exists it.
    split; [now apply list_elem_of_In | apply String.eqb_refl].
Qed.

Lemma batch_delete_elem (its : list Item) (rows : list Row) (r : Row) :
  r ∈ batch_delete its rows <-> r ∈ rows /\ r_uuid r ∉ uuid <$> its.
Proof.
  unfold batch_delete.
  rewrite list_elem_of_In, filter_In, <- list_elem_of_In, negb_true_iff.
  rewrite <- existsb_uuid. now destruct (existsb _ its).
Qed.

Lemma List_filter_sublist {A : Type} (p : A -> bool) (l : list A) :
  sublist (List.filter p l) l.
Proof.
  induction l as [|x l IH]; cbn [List.filter]; [constructor|].
  destruct (p x); now constructor.
Qed.

Lemma List_filter_all {A : Type} (p : A -> bool) (l : list A) :
  (forall x, x ∈ l -> p x = true) -> List.filter p l = l.
Proof.
  induction l as [|x l IH]; intros Hp; cbn [List.filter]; [reflexivity|].
  rewrite (Hp x) by left. f_equal. apply IH. intros y Hy. apply Hp. now right.
Qed.

Lemma batch_delete_twice (its : list Item) (rows : list Row) :
  batch_delete its (batch_delete its rows) = batch_delete its rows.
Proof.
  apply List_filter_all. intros r Hr.
  apply list_elem_of_In, filter_In in Hr. tauto.
Qed.

(** X3: on a sound storage [delete_items] of a list of items returns and
    leaves the records whose uuid is not the uuid of a listed item, all of
    them, in their order; it touches no object.  A uuid that is not stored
    is no error: when none of the listed uuids is stored the table is as
    before, and deleting the same items again changes nothing. *)
Theorem delete_items_removes_listed_uuids_only w s rows l its :
  sound s rows w ->
  objects_at (items w) l its ->
  exists w' rows',
    SqliteQueuesStorage_delete_items s (PyItem <$> l) w = (Ret tt, w') /\
    database w' = Some rows' /\
    same_objects w w' /\
    (forall r, r ∈ rows' <-> r ∈ rows /\ r_uuid r ∉ uuid <$> its) /\
    sublist rows' rows /\
    ((forall it, it ∈ its -> uuid it ∉ r_uuid <$> rows) -> rows' = rows) /\
    SqliteQueuesStorage_delete_items s (PyItem <$> l) w' = (Ret tt, w').
Proof.
  intros Hs Hl.
  pose proof (SqliteQueuesStorage_delete_items_ok _ _ _ _ _ Hs Hl) as Hrun.
  rewrite run_deletes_batch in Hrun.
  set (rows' := batch_delete its rows) in *.
  set (w' := set_database (Some rows') w) in *.
  assert (Hs' : sound s rows' w') by (eapply sound_set_database; exact Hs).
  exists w', rows'. split; [exact Hrun|]. split; [reflexivity|].
  split; [now repeat split|]. split; [apply batch_delete_elem|].
  split; [apply List_filter_sublist|]. split.
  - intros Hnone. apply List_filter_all. intros r Hr.
    apply negb_true_iff. destruct (existsb _ its) eqn:He; [|reflexivity].
    apply existsb_uuid, list_elem_of_fmap in He as (it & Hu & Hit).
    exfalso. apply (Hnone it Hit). rewrite <- Hu.
    now apply list_elem_of_fmap_2.
  - rewrite (SqliteQueuesStorage_delete_items_ok _ _ _ _ _ Hs' Hl).
    rewrite run_deletes_batch. subst rows'. rewrite batch_delete_twice.
    reflexivity.
Qed.

Lemma delete_items_removes_listed_uuids_only_witness :
  exists w' rows',
    SqliteQueuesStorage_delete_items (mkStorage false) (PyItem <$> [2%nat])
      three_items = (Ret tt, w') /\
    database w' = Some rows' /\
    same_objects three_items w' /\
    (forall r, r ∈ rows' <->
       r ∈ [mkRow "jobs" "a" "x" 5%float 1; mkRow "jobs" "c" "z" 1%float 1] /\
       r_uuid r ∉ uuid <$> [mkItem "c" "z" 1%float 1]) /\
    sublist rows' [mkRow "jobs" "a" "x" 5%float 1; mkRow "jobs" "c" "z" 1%float 1] /\
    ((forall it, it ∈ [mkItem "c" "z" 1%float 1] ->
        uuid it ∉ r_uuid <$>
          [mkRow "jobs" "a" "x" 5%float 1; mkRow "jobs" "c" "z" 1%float 1]) ->
     rows' = [mkRow "jobs" "a" "x" 5%float 1; mkRow "jobs" "c" "z" 1%float 1]) /\
    SqliteQueuesStorage_delete_items (mkStorage false) (PyItem <$> [2%nat]) w'
      = (Ret tt, w').
Proof.
  apply (delete_items_removes_listed_uuids_only three_items (mkStorage false)
           [mkRow "jobs" "a" "x" 5%float 1; mkRow "jobs" "c" "z" 1%float 1]
           [2%nat] [mkItem "c" "z" 1%float 1]).
  - now repeat split.
  - repeat constructor.
Defined.

Lemma batch_update_ttl_rows (its : list Item) : forall rows,
  Forall2 (fun r r' =>
    r_queue_name r' = r_queue_name r /\ r_uuid r' = r_uuid r /\
    r_data r' = r_data r /\ r_flags r' = r_flags r /\
    (r_uuid r ∉ uuid <$> its -> r' = r) /\
    (r_uuid r ∈ uuid <$> its ->
     exists it, it ∈ its /\ uuid it = r_uuid r /\ r_ttl r' = stored_ttl (ttl it)))
    rows (batch_update_ttl its rows).
Proof.
  induction rows as [|r rows IH]; [constructor|].
  unfold batch_update_ttl in *. cbn [List.map]. constructor; [|exact IH].
  destruct (List.find _ (rev its)) as [it|] eqn:Hf.
  - apply find_some in Hf as [Hin He]. apply String.eqb_eq in He.
    apply in_rev, list_elem_of_In in Hin.
    cbn [with_ttl r_queue_name r_uuid r_data r_flags r_ttl].
    repeat split; try reflexivity.
    + intros Hnot. exfalso. apply Hnot. rewrite He. now apply list_elem_of_fmap_2.
    + intros _. now exists it.
  - repeat split; try reflexivity. intros Hin. exfalso.
    apply list_elem_of_fmap in Hin as (it & Hu & Hit).
    apply list_elem_of_In, in_rev in Hit.
    pose proof (find_none _ _ Hf it Hit) as Hne. cbn in Hne.
    rewrite Hu, String.eqb_refl in Hne. discriminate.
Qed.

(** X4: on a sound storage [update_items_ttl] of a list of items returns and
    touches no object; the table has the same records in the same order,
    each with its queue name, uuid, data and flags; a record whose uuid is
    that of no listed item is unchanged (an uuid that is not stored is no
    error), and a record whose uuid is that of a listed item has the ttl of
    such an item as the column keeps it: NULL for a ttl NaN or [None], 0.0
    for a zero of either sign, the ttl itself otherwise. *)
Theorem update_items_ttl_changes_only_ttl w s rows l its :
  sound s rows w ->
  objects_at (items w) l its ->
  exists w' rows',
    SqliteQueuesStorage_update_items_ttl s l w = (Ret tt, w') /\
    database w' = Some rows' /\
    same_objects w w' /\
    Forall2 (fun r r' =>
      r_queue_name r' = r_queue_name r /\ r_uuid r' = r_uuid r /\
      r_data r' = r_data r /\ r_flags r' = r_flags r /\
      (r_uuid r ∉ uuid <$> its -> r' = r) /\
      (r_uuid r ∈ uuid <$> its ->
       exists it, it ∈ its /\ uuid it = r_uuid r /\
         r_ttl r' = match ttl it with
                    | None => None
                    | Some t =>
                        if PrimFloat.is_nan t then None
                        else if PrimFloat.is_zero t then Some 0%float
                        else Some t
                    end))
      rows rows'.
Proof.
  intros Hs Hl.
  pose proof (SqliteQueuesStorage_update_items_ttl_ok _ _ _ _ _ Hs Hl) as Hrun.
  rewrite run_updates_batch in Hrun.
  eexists _, _. split; [exact Hrun|]. split; [reflexivity|].
  split; [now repeat split|]. apply batch_update_ttl_rows.
Qed.

Lemma update_items_ttl_changes_only_ttl_witness :
  exists w' rows',
    SqliteQueuesStorage_update_items_ttl (mkStorage false) [0; 1]%nat
      aged_a_and_nan = (Ret tt, w') /\
    database w' = Some rows' /\
    same_objects aged_a_and_nan w' /\
    rows' = [mkRow "jobs" "a" "x" 2%float 1; Build_Row "jobs" "n" "y" None 1;
             mkRow "jobs" "c" "z" 1%float 1].
Proof.
  destruct (update_items_ttl_changes_only_ttl aged_a_and_nan (mkStorage false)
              [mkRow "jobs" "a" "x" 5%float 1; mkRow "jobs" "n" "y" 7%float 1;
               mkRow "jobs" "c" "z" 1%float 1]
              [0; 1]%nat
              [mkItem "a" "x" 2%float 1; mkItem "n" "y" PrimFloat.nan 1]
              (conj eq_refl (conj eq_refl eq_refl))
              ltac:(repeat constructor))
    as (w' & rows' & Hrun & Hd & Hsame & _).
  exists w', rows'. repeat (split; [assumption|]).
  vm_compute in Hrun. inversion Hrun; subst w'.
  inversion Hd. reflexivity.
Defined.

Lemma group_names_elem (rows : list Row) (n : string) :
  n ∈ group_names rows <-> exists r, r ∈ rows /\ r_queue_name r = n.
Proof.
  induction rows as [|r rows IH]; cbn [group_names].
  - split; [intros H; now apply elem_of_nil in H|].
    intros (r & H & _). now apply elem_of_nil in H.
  - rewrite elem_of_cons, list_elem_of_In, filter_In, <- list_elem_of_In, IH.
    rewrite negb_true_iff. split.
    + intros [->|[(r' & Hr' & Hn) _]].
      * exists r. split; [left | reflexivity].
      * exists r'. split; [now right | exact Hn].
    + intros (r' & Hr' & Hn).
      destruct (String.eqb n (r_queue_name r)) eqn:E.
      * left. now apply String.eqb_eq.
      * apply elem_of_cons in Hr' as [->|Hr'].
        -- rewrite Hn, String.eqb_refl in E. discriminate.
        -- right. split; [|reflexivity]. now exists r'.
Qed.

Lemma group_names_NoDup (rows : list Row) : NoDup (group_names rows).
Proof.
  induction rows as [|r rows IH]; cbn [group_names]; [constructor|].
  apply NoDup_cons. split; [|now apply NoDup_List_filter].
  intros Hin. apply list_elem_of_In, filter_In in Hin as [_ Hne].
  rewrite String.eqb_refl in Hne. discriminate.
Qed.

Lemma insert_sorted_perm (n : string) (l : list string) :
  insert_sorted n l ≡ₚ n :: l.
Proof.
  induction l as [|m l IH]; cbn [insert_sorted]; [reflexivity|].
  destruct (String.compare n m); try reflexivity.
  rewrite IH. apply Permutation_swap.
Qed.

Lemma sql_group_names_perm (rows : list Row) :
  sql_group_names rows ≡ₚ group_names rows.
Proof.
  unfold sql_group_names.
  induction (group_names rows) as [|n l IH]; cbn [foldr]; [reflexivity|].
  now rewrite insert_sorted_perm, IH.
Qed.

Lemma sql_group_names_elem (rows : list Row) (n : string) :
  n ∈ sql_group_names rows <-> exists r, r ∈ rows /\ r_queue_name r = n.
Proof. rewrite sql_group_names_perm. apply group_names_elem. Qed.

Lemma sql_group_names_NoDup (rows : list Row) : NoDup (sql_group_names rows).
Proof. rewrite sql_group_names_perm. apply group_names_NoDup. Qed.

(** ** The manager and its queues *)

(** X5: on a sound storage [get_queues] returns, once each, the queue names
    that have at least one record, and leaves the world as it is. *)
Theorem get_queues_names_with_records_once w s rows :
  sound s rows w ->
  exists names,
    SqliteQueuesStorage_get_queues s w = (Ret names, w) /\
    NoDup names /\
    (forall n, n ∈ names <-> exists r, r ∈ rows /\ r_queue_name r = n).
Proof.
  intros Hs. exists (sql_group_names rows).
  split; [exact (execute_select_ok _ _ _ _ Hs)|].
  split; [apply sql_group_names_NoDup | apply sql_group_names_elem].
Qed.

Lemma get_queues_names_with_records_once_witness :
  exists names,
    SqliteQueuesStorage_get_queues (mkStorage false) three_items
      = (Ret names, three_items) /\
    NoDup names /\
    (forall n, n ∈ names <->
       exists r,
         r ∈ [mkRow "jobs" "a" "x" 5%float 1; mkRow "jobs" "c" "z" 1%float 1] /\
         r_queue_name r = n).
Proof.
  apply (get_queues_names_with_records_once three_items (mkStorage false)).
  now repeat split.
Defined.

(** X6: two calls of [get_queue] in a row with the same name give the same
    queue: once [get_queue] returned a queue for a name, the call with that
    name that comes next returns the same object and changes nothing. *)
Theorem get_queue_same_instance n w qa w1 :
  QueuesManager_get_queue n w = (Ret qa, w1) ->
  QueuesManager_get_queue n w1 = (Ret qa, w1).
Proof.
  intros Hrun. apply QueuesManager_get_queue_known.
  unfold QueuesManager_get_queue in Hrun.
  erewrite bind_ret in Hrun by reflexivity.
  destruct (dict_get n (queues (manager w))) as [q|] eqn:Hd.
  - inversion Hrun; subst. exact Hd.
  - unfold mbind at 1, Py_bind at 1 in Hrun.
    destruct (Queue___init__ n w) as [[q|e] w0]; [|discriminate Hrun].
    erewrite bind_ret in Hrun by reflexivity.
    inversion Hrun; subst. cbn [manager set_manager queues set_queues].
    now rewrite dict_get_set, String.eqb_refl.
Qed.

Lemma get_queue_same_instance_witness :
  QueuesManager_get_queue "mail"
    (snd (QueuesManager_get_queue "mail" one_persistent))
  = (Ret 1%nat, snd (QueuesManager_get_queue "mail" one_persistent)).
Proof.
  apply (get_queue_same_instance "mail" one_persistent).
  vm_compute. reflexivity.
Defined.







(** ** The queue between two calls of connect *)



Lemma set_queue_objs_id w : set_queue_objs (fun h => h) w = w.
Proof. now destruct w. Qed.

Lemma Queue_pop_world self w :
  exists f, snd (Queue_pop self w) = set_queue_objs f w.
Proof.
  destruct (queue_objs w !! self) as [q|] eqn:Hq.
  - destruct (queue q) as [|a l] eqn:He.
    + exists (fun h => h).
      now rewrite (Queue_pop_empty _ _ _ Hq He), set_queue_objs_id.
    + exists (alter (set_queue l) self).
      destruct (items w !! a) as [it|] eqn:Hit.
      * destruct (persistent it) eqn:Hp.
        -- now rewrite (Queue_pop_persistent _ _ _ _ _ _ Hq He Hit Hp).
        -- now rewrite (Queue_pop_transient _ _ _ _ _ _ Hq He Hit Hp).
      * unfold Queue_pop.
        rewrite (bind_ret _ _ _ _ _ (get_queue_obj_ok _ _ _ Hq)). rewrite He.
        erewrite bind_ret by reflexivity.
        erewrite bind_raise; [reflexivity|].
        unfold get_item. cbn [items set_queue_objs]. now rewrite Hit.
  - exists (fun h => h). rewrite set_queue_objs_id.
    unfold Queue_pop, get_queue_obj, mbind, Py_bind. now rewrite Hq.
Qed.

(** X10: [pop] changes no record of the storage and makes no call on the
    medium, in any world: the only thing it changes is the sequence of the
    queue.  (Its [delete_items] raises before the first DELETE.) *)
Theorem pop_changes_no_record w self :
  database (snd (Queue_pop self w)) = database w /\
  faults (snd (Queue_pop self w)) = faults w /\
  items (snd (Queue_pop self w)) = items w /\
  manager (snd (Queue_pop self w)) = manager w /\
  clock (snd (Queue_pop self w)) = clock w.
Proof.
  destruct (Queue_pop_world self w) as [f Hf]. rewrite Hf. now repeat split.
Qed.

Lemma keeps_items_pop self : keeps_items (Queue_pop self).
Proof.
  intros w.
  destruct (queue_objs w !! self) as [q|] eqn:Hq.
  - destruct (queue q) as [|a l] eqn:He.
    + now rewrite (Queue_pop_empty _ _ _ Hq He).
    + destruct (Queue_pop_front w self q a l Hq He) as (o & w' & Hrun & Hi & _).
      now rewrite Hrun.
  - unfold Queue_pop, get_queue_obj, mbind, Py_bind. now rewrite Hq.
Qed.

Lemma keeps_items_bind {A B : Type} (m : Py A) (k : A -> Py B) :
  keeps_items m -> (forall a, keeps_items (k a)) -> keeps_items (m ≫= k).
Proof.
  intros Hm Hk w. specialize (Hm w). unfold mbind, Py_bind.
  destruct (m w) as [[a|e] w1]; cbn [snd] in *; [|exact Hm].
  now rewrite Hk.
Qed.

Lemma keeps_items_storage_only {A : Type} (m : Py A) :
  storage_only m -> keeps_items m.
Proof. intros H w. apply H. Qed.

Lemma keeps_items_attempt {A : Type} (m : Py A) :
  keeps_items m -> keeps_items (attempt m).
Proof.
  intros H w. specialize (H w). unfold attempt. now destruct (m w).
Qed.

Lemma keeps_items_get_queue_obj qa : keeps_items (get_queue_obj qa).
Proof. intros w. unfold get_queue_obj. now destruct (queue_objs w !! qa). Qed.

Lemma keeps_items_update_queue_obj qa f : keeps_items (update_queue_obj qa f).
Proof. intros w. reflexivity. Qed.

Lemma keeps_items_ret {A : Type} (a : A) : keeps_items (mret a).
Proof. intros w. reflexivity. Qed.

Lemma keeps_items_run_call self c :
  c <> CConnect -> keeps_items (run_call self c).
Proof.
  intros Hc. destruct c as [a| | | | |t]; cbn [run_call]; [| | | easy | |].
  - unfold Queue_push.
    apply keeps_items_bind; [apply keeps_items_get_queue_obj | intros q].
    apply keeps_items_bind; [apply keeps_items_update_queue_obj | intros _].
    apply keeps_items_storage_only.
    apply storage_only_bind; [apply storage_only_get_item | intros it].
    destruct (persistent it); [|apply storage_only_ret].
    apply storage_only_bind; [apply storage_only_manager_storage | intros s].
    apply storage_only_push.
  - unfold Queue_get.
    apply keeps_items_bind; [|intros _; apply keeps_items_ret].
    apply keeps_items_bind; [apply keeps_items_get_queue_obj | intros q].
    destruct (queue q); apply keeps_items_ret.
  - apply keeps_items_pop.
  - unfold Queue_disconnect, time_time.
    apply keeps_items_bind; [intros w; reflexivity | intros t].
    apply keeps_items_bind; [apply keeps_items_get_queue_obj | intros _].
    apply keeps_items_update_queue_obj.
  - intros w. reflexivity.
Qed.

(** X11: the ttl of an item changes in [connect] only: after any calls of
    push, get, pop and disconnect and any passing of time, every [Item]
    object is as it was, whatever the calls returned or raised. *)
Theorem only_connect_changes_items self cs w :
  no_connect cs = true ->
  items (snd (run_calls self cs w)) = items w.
Proof.
  revert w. induction cs as [|c cs IH]; intros w Hnc; [reflexivity|].
  cbn [no_connect forallb] in Hnc. apply andb_true_iff in Hnc as [Hc Hnc].
  assert (Hne : c <> CConnect) by (intros ->; discriminate Hc).
  pose proof (keeps_items_run_call self c Hne w) as Hstep.
  destruct (run_call self c w) as [o w1] eqn:Hrun. cbn [snd] in Hstep.
  unfold run_calls in *. cbn [for_each].
  erewrite bind_ret; [|erewrite bind_attempt by exact Hrun; reflexivity].
  transitivity (items w1); [apply IH; exact Hnc | exact Hstep].
Qed.

Lemma only_connect_changes_items_witness :
  items (snd (run_calls 0%nat
                [CPush 0%nat; CSleep 100%float; CGet; CDisconnect; CPop; CPop]
                empty_jobs))
  = items empty_jobs.
Proof.
  exact (only_connect_changes_items 0%nat
           [CPush 0%nat; CSleep 100%float; CGet; CDisconnect; CPop; CPop]
           empty_jobs eq_refl).
Defined.

(** ** connect again, and connect against the storage *)

(** X12, for a sequence of distinct item objects with float ttls and a
    storage whose calls succeed: [connect] does not touch
    [last_disconnect_absolute].  A second [connect] at time [t2], with no
    [disconnect] between, takes [t2 - t0] off the ttl of the items that the
    first one kept, on top of what the first one took off: the time up to
    the first [connect] is charged twice.  An item that the first [connect]
    evicted is not aged again. *)
Theorem connect_twice_charges_from_same_disconnect w self q s rows t0 t2 :
  queue_objs w !! self = Some q ->
  last_disconnect_absolute q = Some t0 ->
  storage (manager w) = Some s ->
  sound s rows w ->
  queue_wf w q ->
  let d1 := PrimFloat.sub (clock w) t0 in
  let d2 := PrimFloat.sub t2 t0 in
  exists w2 q2,
    (Queue_connect self ;; sleep_until t2 ;; Queue_connect self) w
      = (Ret tt, w2) /\
    queue_objs w2 !! self = Some q2 /\
    last_disconnect_absolute q2 = Some t0 /\
    (forall a it t, a ∈ queue q -> items w !! a = Some it -> ttl it = Some t ->
       PrimFloat.leb 0%float (PrimFloat.sub t d1) = true ->
       items w2 !! a =
         Some (mkItem (uuid it) (data it)
                 (PrimFloat.sub (PrimFloat.sub t d1) d2) (flags it))) /\
    (forall a it t, a ∈ queue q -> items w !! a = Some it -> ttl it = Some t ->
       PrimFloat.leb 0%float (PrimFloat.sub t d1) = false ->
       items w2 !! a =
         Some (mkItem (uuid it) (data it) (PrimFloat.sub t d1) (flags it))).
Proof.
  intros Hq Ht Hst Hs Hwf d1 d2.
  pose proof (Queue_connect_ok _ _ _ _ _ _ Hq Ht Hst Hs Hwf) as Hrun1.
  fold d1 in Hrun1. destruct Hwf as [Hnd Hv].
  set (h1 := age d1 (queue q) (items w)).
  set (w1 := connected d1 self q rows w) in *.
  set (q1 := set_queue (survivors h1 (queue q)) q).
  destruct (sound_connected s rows d1 self q w Hs) as [rows1 Hs1]. fold w1 in Hs1.
  assert (Hq1 : queue_objs (set_clock t2 w1) !! self = Some q1).
  { subst w1. cbn [queue_objs set_clock]. rewrite connected_queue_objs.
    now rewrite list_lookup_alter_eq, Hq. }
  assert (Hwf1 : queue_wf (set_clock t2 w1) q1).
  { split; [now apply NoDup_List_filter|].
    cbn [queue set_queue q1 items set_clock]. subst w1.
    rewrite connected_items. intros a Ha. apply age_float_ttl, Hv.
    apply list_elem_of_In, filter_In in Ha as [Ha _]. now apply list_elem_of_In. }
  pose proof (Queue_connect_ok (set_clock t2 w1) self q1 s rows1 t0 Hq1 Ht Hst
                (sound_set_clock _ _ _ _ Hs1) Hwf1) as Hrun2.
  cbn [clock set_clock] in Hrun2. fold d2 in Hrun2.
  assert (Hh1 : forall a it t, a ∈ queue q -> items w !! a = Some it ->
                  ttl it = Some t ->
                  h1 !! a = Some (mkItem (uuid it) (data it) (PrimFloat.sub t d1)
                                    (flags it))).
  { intros a it t Ha Hit Hti. subst h1. rewrite age_lookup_in by assumption.
    rewrite Hit. cbn [fmap option_fmap option_map]. f_equal.
    now apply aged_float. }
  assert (Hin : forall a it, h1 !! a = Some it ->
            (a ∈ survivors h1 (queue q) <-> a ∈ queue q /\ alive it = true)).
  { intros a it Ha. unfold survivors.
    rewrite list_elem_of_In, filter_In, <- list_elem_of_In.
    unfold survives. now rewrite Ha. }
  eexists _, _. split; [|split; [|split; [|split]]].
  - erewrite bind_ret by exact Hrun1.
    unfold sleep_until. erewrite bind_ret by reflexivity. exact Hrun2.
  - rewrite connected_queue_objs, list_lookup_alter_eq, Hq1. reflexivity.
  - exact Ht.
  - intros a it t Ha Hit Hti Hal. rewrite connected_items.
    cbn [queue set_queue q1 items set_clock]. subst w1. rewrite connected_items.
    fold h1. rewrite age_lookup_in.
    + rewrite (Hh1 a it t Ha Hit Hti). reflexivity.
    + now apply NoDup_List_filter.
    + apply (Hin a _ (Hh1 a it t Ha Hit Hti)). now split.
  - intros a it t Ha Hit Hti Hal. rewrite connected_items.
    cbn [queue set_queue q1 items set_clock]. subst w1. rewrite connected_items.
    fold h1. rewrite age_lookup_notin; [exact (Hh1 a it t Ha Hit Hti)|].
    intros Hs'. apply (Hin a _ (Hh1 a it t Ha Hit Hti)) in Hs' as [_ Hal'].
    unfold alive in Hal'. cbn [ttl mkItem] in Hal'.
    rewrite Hal in Hal'. discriminate.
Qed.

Lemma connect_twice_charges_from_same_disconnect_witness :
  exists w2 q2,
    (Queue_connect 0%nat ;; sleep_until 14%float ;; Queue_connect 0%nat) three_items
      = (Ret tt, w2) /\
    queue_objs w2 !! 0%nat = Some q2 /\
    last_disconnect_absolute q2 = Some 10%float /\
    items w2 !! 0%nat = Some (mkItem "a" "x" (-2)%float 1) /\
    items w2 !! 1%nat = Some (mkItem "b" "y" (-4)%float 0) /\
    items w2 !! 2%nat = Some (mkItem "c" "z" (-2)%float 1).
Proof.
  destruct (connect_twice_charges_from_same_disconnect three_items 0%nat
              (mkQueue "jobs" [0; 1; 2]%nat (Some 10%float)) (mkStorage false)
              [mkRow "jobs" "a" "x" 5%float 1; mkRow "jobs" "c" "z" 1%float 1]
              10%float 14%float eq_refl eq_refl eq_refl
              (conj eq_refl (conj eq_refl eq_refl)) three_items_wf)
    as (w2 & q2 & Hrun & Hq2 & Hlda & Hkept & Hgone).
  exists w2, q2.
  split; [exact Hrun|]. split; [exact Hq2|]. split; [exact Hlda|].
  split; [exact (Hkept 0%nat _ _ (list_elem_of_here _ _) eq_refl eq_refl eq_refl)|].
  split; [exact (Hkept 1%nat _ _
                   (list_elem_of_further _ _ _ (list_elem_of_here _ _))
                   eq_refl eq_refl eq_refl)|].
  exact (Hgone 2%nat _ _
           (list_elem_of_further _ _ _
              (list_elem_of_further _ _ _ (list_elem_of_here _ _)))
           eq_refl eq_refl eq_refl).
Defined.

Lemma deref_elem (h : list Item) (l : list addr) (it : Item) :
  it ∈ deref h l <-> exists a, a ∈ l /\ h !! a = Some it.
Proof.
  induction l as [|b l IH]; cbn [deref].
  - split; [intros H; now apply elem_of_nil in H|].
    intros (a & H & _). now apply elem_of_nil in H.
  - destruct (h !! b) as [x|] eqn:Hb.
    + rewrite elem_of_cons, IH. split.
      * intros [->|(a & Ha & Hit)]; [exists b | exists a]; split;
          try assumption; [left | now right].
      * intros (a & Ha & Hit). apply elem_of_cons in Ha as [->|Ha].
        -- left. congruence.
        -- right. now exists a.
    + rewrite IH. split.
      * intros (a & Ha & Hit). exists a. split; [now right | exact Hit].
      * intros (a & Ha & Hit). apply elem_of_cons in Ha as [->|Ha]; [congruence|].
        now exists a.
Qed.

Lemma Forall2_elem_r {A B : Type} (P : A -> B -> Prop) l k y :
  Forall2 P l k -> y ∈ k -> exists x, x ∈ l /\ P x y.
Proof.
  induction 1 as [|x y' l k Hxy _ IH]; intros Hy.
  - now apply elem_of_nil in Hy.
  - apply elem_of_cons in Hy as [->|Hy].
    + exists x. split; [left | exact Hxy].
    + destruct (IH Hy) as (x' & Hx' & HP). exists x'. split; [now right | exact HP].
Qed.

Lemma Forall2_elem_l {A B : Type} (P : A -> B -> Prop) l k x :
  Forall2 P l k -> x ∈ l -> exists y, y ∈ k /\ P x y.
Proof.
  induction 1 as [|x' y l k Hxy _ IH]; intros Hx.
  - now apply elem_of_nil in Hx.
  - apply elem_of_cons in Hx as [->|Hx].
    + exists y. split; [left | exact Hxy].
    + destruct (IH Hx) as (y' & Hy' & HP). exists y'. split; [now right | exact HP].
Qed.

Lemma kept_persistent_elem (h : list Item) (l : list addr) (it : Item) :
  it ∈ deref h (persistent_of h (survivors h l)) <->
  exists a, a ∈ l /\ h !! a = Some it /\ persistent it = true /\ alive it = true.
Proof.
  rewrite deref_elem. unfold persistent_of, survivors. split.
  - intros (a & Ha & Hit).
    apply list_elem_of_In, filter_In in Ha as [Ha Hp].
    apply filter_In in Ha as [Ha Hs].
    unfold persists in Hp. unfold survives in Hs. rewrite Hit in Hp, Hs.
    exists a. split; [now apply list_elem_of_In | now repeat split].
  - intros (a & Ha & Hit & Hp & Hs). exists a. split; [|exact Hit].
    apply list_elem_of_In, filter_In. split.
    + apply filter_In. split; [now apply list_elem_of_In|].
      unfold survives. now rewrite Hit.
    + unfold persists. now rewrite Hit.
Qed.

Lemma evicted_persistent_elem (h : list Item) (l : list addr) (it : Item) :
  it ∈ deref h (persistent_of h (evicted h l)) <->
  exists a, a ∈ l /\ h !! a = Some it /\ persistent it = true /\ alive it = false.
Proof.
  rewrite deref_elem. unfold persistent_of, evicted. split.
  - intros (a & Ha & Hit).
    apply list_elem_of_In, filter_In in Ha as [Ha Hp].
    apply filter_In in Ha as [Ha Hs]. apply negb_true_iff in Hs.
    unfold persists in Hp. unfold survives in Hs. rewrite Hit in Hp, Hs.
    exists a. split; [now apply list_elem_of_In | now repeat split].
  - intros (a & Ha & Hit & Hp & Hs). exists a. split; [|exact Hit].
    apply list_elem_of_In, filter_In. split.
    + apply filter_In. split; [now apply list_elem_of_In|].
      unfold survives. now rewrite Hit, Hs.
    + unfold persists. now rewrite Hit.
Qed.

(** X13, for a sequence of distinct item objects with float ttls: after
    [connect] on a sound storage the table is in step with the sequence.  No
    record is left with the uuid of a persistent item that was evicted; a
    record with the uuid of a persistent item that was kept carries the new
    ttl of such an item, as the column keeps it (0.0 for a zero of either
    sign); and a record whose uuid is that of no persistent item of the
    sequence is in the table as it was. *)
Theorem connect_leaves_storage_in_step w self q s rows t0 :
  queue_objs w !! self = Some q ->
  last_disconnect_absolute q = Some t0 ->
  storage (manager w) = Some s ->
  sound s rows w ->
  queue_wf w q ->
  exists w' rows',
    Queue_connect self w = (Ret tt, w') /\
    database w' = Some rows' /\
    (forall a it', a ∈ queue q -> items w' !! a = Some it' ->
       persistent it' = true -> alive it' = false ->
       uuid it' ∉ r_uuid <$> rows') /\
    (forall r' a it', r' ∈ rows' ->
       a ∈ queue q -> items w' !! a = Some it' ->
       persistent it' = true -> alive it' = true -> uuid it' = r_uuid r' ->
       exists b it'' t'', b ∈ queue q /\ items w' !! b = Some it'' /\
         persistent it'' = true /\ ttl it'' = Some t'' /\
         PrimFloat.leb 0%float t'' = true /\
         uuid it'' = r_uuid r' /\
         r_ttl r' = Some (if PrimFloat.is_zero t'' then 0%float else t'')) /\
    (forall r, r ∈ rows ->
       (forall a it', a ∈ queue q -> items w' !! a = Some it' ->
          persistent it' = true -> uuid it' <> r_uuid r) ->
       r ∈ rows').
Proof.
  intros Hq Ht Hst Hs Hwf.
  pose proof (Queue_connect_ok _ _ _ _ _ _ Hq Ht Hst Hs Hwf) as Hrun.
  set (diff := PrimFloat.sub (clock w) t0) in *.
  set (h' := age diff (queue q) (items w)).
  set (upd := deref h' (persistent_of h' (survivors h' (queue q)))).
  set (del := deref h' (persistent_of h' (evicted h' (queue q)))).
  exists (connected diff self q rows w), (batch_delete del (batch_update_ttl upd rows)).
  split; [exact Hrun|]. split; [reflexivity|].
  rewrite connected_items. fold h'.
  pose proof (batch_update_ttl_rows upd rows) as Hupd.
  split; [|split].
  - intros a it' Ha Hit' Hp Hal Hin.
    apply list_elem_of_fmap in Hin as (r' & Hu & Hr').
    apply batch_delete_elem in Hr' as [_ Hnot]. apply Hnot.
    rewrite <- Hu. apply list_elem_of_fmap_2.
    apply evicted_persistent_elem. now exists a.
  - intros r' a it' Hr' Ha Hit' Hp Hal Hu.
    apply batch_delete_elem in Hr' as [Hr' _].
    destruct (Forall2_elem_r _ _ _ _ Hupd Hr')
      as (r & Hr & _ & Hur & _ & _ & _ & Hlisted).
    destruct Hlisted as (it'' & Hit'' & Hu'' & Httl).
    { rewrite <- Hur, <- Hu. apply list_elem_of_fmap_2.
      apply kept_persistent_elem. now exists a. }
    apply kept_persistent_elem in Hit'' as (b & Hb & Hitb & Hpb & Halb).
    unfold alive in Halb. destruct (ttl it'') as [t''|] eqn:Ht''; [|discriminate].
    exists b, it'', t''. repeat split; try assumption; [congruence|].
    rewrite Httl. cbn [stored_ttl]. unfold sqlite_real.
    rewrite (above_zero_not_nan _ Halb). now destruct (PrimFloat.is_zero t'').
  - intros r Hr Hother.
    destruct (Forall2_elem_l _ _ _ _ Hupd Hr)
      as (r' & Hr' & _ & _ & _ & _ & Hsame & _).
    assert (Hr_eq : r' = r).
    { apply Hsame. intros Hin.
      apply list_elem_of_fmap in Hin as (it & Hu & Hit).
      apply kept_persistent_elem in Hit as (a & Ha & Hita & Hpa & _).
      now apply (Hother a it Ha Hita Hpa). }
    subst r'. apply batch_delete_elem. split; [exact Hr'|].
    intros Hin. apply list_elem_of_fmap in Hin as (it & Hu & Hit).
    apply evicted_persistent_elem in Hit as (a & Ha & Hita & Hpa & _).
    now apply (Hother a it Ha Hita Hpa).
Qed.

Lemma connect_leaves_storage_in_step_witness :
  exists w' rows',
    Queue_connect 0%nat three_items = (Ret tt, w') /\
    database w' = Some rows' /\
    rows' = [mkRow "jobs" "a" "x" 2%float 1] /\
    (forall a it', a ∈ [0; 1; 2]%nat -> items w' !! a = Some it' ->
       persistent it' = true -> alive it' = false ->
       uuid it' ∉ r_uuid <$> rows') /\
    (forall r' a it', r' ∈ rows' ->
       a ∈ [0; 1; 2]%nat -> items w' !! a = Some it' ->
       persistent it' = true -> alive it' = true -> uuid it' = r_uuid r' ->
       exists b it'' t'', b ∈ [0; 1; 2]%nat /\ items w' !! b = Some it'' /\
         persistent it'' = true /\ ttl it'' = Some t'' /\
         PrimFloat.leb 0%float t'' = true /\
         uuid it'' = r_uuid r' /\
         r_ttl r' = Some (if PrimFloat.is_zero t'' then 0%float else t'')) /\
    (forall r,
       r ∈ [mkRow "jobs" "a" "x" 5%float 1; mkRow "jobs" "c" "z" 1%float 1] ->
       (forall a it', a ∈ [0; 1; 2]%nat -> items w' !! a = Some it' ->
          persistent it' = true -> uuid it' <> r_uuid r) ->
       r ∈ rows').
Proof.
  destruct (connect_leaves_storage_in_step three_items 0%nat
              (mkQueue "jobs" [0; 1; 2]%nat (Some 10%float)) (mkStorage false)
              [mkRow "jobs" "a" "x" 5%float 1; mkRow "jobs" "c" "z" 1%float 1]
              10%float eq_refl eq_refl eq_refl
              (conj eq_refl (conj eq_refl eq_refl)) three_items_wf)
    as (w' & rows' & Hrun & Hd & H1 & H2 & H3).
  exists w', rows'. split; [exact Hrun|]. split; [exact Hd|].
  split; [|split; [exact H1|split; [exact H2|exact H3]]].
  vm_compute in Hrun. inversion Hrun; subst w'. inversion Hd. reflexivity.
Defined.

(** ** cleanup and close *)

Lemma dict_get_del k k0 d :
  dict_get k (dict_del k0 d) =
  if String.eqb k k0 then None else dict_get k d.
Proof.
  unfold dict_del. induction d as [|[k' v] d IH]; cbn [List.filter dict_get fst].
  - now destruct (String.eqb k k0).
  - destruct (String.eqb k' k0) eqn:E0; cbn [negb dict_get].
    + rewrite IH. apply String.eqb_eq in E0 as ->.
      rewrite (String.eqb_sym k0 k). now destruct (String.eqb k k0).
    + rewrite IH. destruct (String.eqb k' k) eqn:E1; [|reflexivity].
      apply String.eqb_eq in E1 as ->. now rewrite E0.
Qed.

Lemma dict_get_unique k v d :
  NoDup (fst <$> d) -> In (k, v) d -> dict_get k d = Some v.
Proof.
  induction d as [|[k' v'] d IH]; intros Hnd Hin; [destruct Hin|].
  cbn [fmap list_fmap fst] in Hnd. apply NoDup_cons in Hnd as [Hk Hnd].
  cbn [dict_get]. destruct Hin as [Heq|Hin].
  - inversion Heq; subst. now rewrite String.eqb_refl.
  - destruct (String.eqb k' k) eqn:E; [|now apply IH].
    apply String.eqb_eq in E as ->. exfalso. apply Hk.
    apply list_elem_of_fmap. exists (k, v). split; [reflexivity|].
    now apply list_elem_of_In.
Qed.

(** X14: whatever [cleanup] does to the dictionary, it changes no item, no
    queue object, no record and not the storage handle; it registers
    nothing, and a queue that holds an item stays registered under its
    name.  It returns normally exactly when no registered queue is empty,
    and then the world is as before. *)
Theorem cleanup_keeps_queues_that_hold_items w :
  (forall kv, In kv (queues (manager w)) -> is_Some (queue_objs w !! kv.2)) ->
  NoDup (fst <$> queues (manager w)) ->
  exists o w',
    QueuesManager_cleanup w = (o, w') /\
    items w' = items w /\ queue_objs w' = queue_objs w /\
    database w' = database w /\ faults w' = faults w /\
    storage (manager w') = storage (manager w) /\
    (forall k qa, dict_get k (queues (manager w')) = Some qa ->
       dict_get k (queues (manager w)) = Some qa) /\
    (forall k qa q, dict_get k (queues (manager w)) = Some qa ->
       queue_objs w !! qa = Some q -> queue q <> [] ->
       dict_get k (queues (manager w')) = Some qa) /\
    (o = Ret tt <->
     forall kv, In kv (queues (manager w)) -> is_empty w kv = false) /\
    (o = Ret tt -> w' = w).
Proof.
  intros Hv Hnd. rewrite (QueuesManager_cleanup_run w Hv).
  destruct (List.find (is_empty w) (queues (manager w))) as [[k0 qa0]|] eqn:Hf.
  - apply find_some in Hf as [Hin He].
    eexists _, _. split; [reflexivity|].
    cbn [items queue_objs database faults manager set_manager storage
         set_queues queues].
    repeat (split; [reflexivity|]).
    split; [|split; [|split]].
    + intros k qa Hk. rewrite dict_get_del in Hk.
      now destruct (String.eqb k k0).
    + intros k qa q Hk Hq Hne. rewrite dict_get_del.
      destruct (String.eqb k k0) eqn:E; [|exact Hk].
      apply String.eqb_eq in E as ->. exfalso.
      rewrite (dict_get_unique _ _ _ Hnd Hin) in Hk. inversion Hk; subst qa0.
      unfold is_empty in He. cbn [snd] in He. rewrite Hq in He.
      destruct (queue q); [now apply Hne | discriminate He].
    + split; [discriminate|]. intros Hall.
      rewrite (Hall _ Hin) in He. discriminate.
    + discriminate.
  - eexists _, _. split; [reflexivity|].
    repeat (split; [reflexivity|]).
    split; [now intros|]. split; [now intros|]. split; [|reflexivity].
    split; [|reflexivity]. intros _ kv Hin.
    exact (find_none _ _ Hf kv Hin).
Qed.

Lemma cleanup_keeps_queues_that_hold_items_witness :
  exists o w',
    QueuesManager_cleanup manager_A_B = (o, w') /\
    items w' = items manager_A_B /\ queue_objs w' = queue_objs manager_A_B /\
    database w' = database manager_A_B /\ faults w' = faults manager_A_B /\
    storage (manager w') = storage (manager manager_A_B) /\
    (forall k qa, dict_get k (queues (manager w')) = Some qa ->
       dict_get k (queues (manager manager_A_B)) = Some qa) /\
    (forall k qa q, dict_get k (queues (manager manager_A_B)) = Some qa ->
       queue_objs manager_A_B !! qa = Some q -> queue q <> [] ->
       dict_get k (queues (manager w')) = Some qa) /\
    (o = Ret tt <->
     forall kv, In kv (queues (manager manager_A_B)) ->
                is_empty manager_A_B kv = false) /\
    (o = Ret tt -> w' = manager_A_B).
Proof.
  apply (cleanup_keeps_queues_that_hold_items manager_A_B).
  - intros kv [<-|[<-|[]]]; now eexists.
  - change (NoDup ["A"; "B"]). apply NoDup_cons. split; [|apply NoDup_singleton].
    intros H. apply list_elem_of_singleton in H. discriminate H.
Defined.



(** ** Through a restart *)






(** ** get_queue that fails *)

Lemma keeps_registry_bind {A B : Type} (m : Py A) (k : A -> Py B) :
  keeps_registry m -> (forall a, keeps_registry (k a)) -> keeps_registry (m ≫= k).
Proof.
  intros Hm Hk w. specialize (Hm w). unfold mbind, Py_bind.
  destruct (m w) as [[a|e] w1]; cbn [snd] in *; [|exact Hm].
  destruct (Hk a w1) as [H1 H2], Hm as [H3 H4]. split; congruence.
Qed.

Lemma keeps_registry_ret {A : Type} (a : A) : keeps_registry (mret a).
Proof. intros w. now split. Qed.

Lemma keeps_registry_sqlite_call s : keeps_registry (sqlite_call s).
Proof.
  intros w. unfold sqlite_call. destruct (conn_closed s); [now split|].
  destruct (faults w) as [|[|] fs]; now split.
Qed.

Lemma keeps_registry_new_items : forall rows, keeps_registry (new_items rows).
Proof. intros rows w. now rewrite new_items_ok. Qed.

Lemma keeps_registry_get_items s n :
  keeps_registry (SqliteQueuesStorage_get_items s n).
Proof.
  unfold SqliteQueuesStorage_get_items, execute_select.
  apply keeps_registry_bind; [|apply keeps_registry_new_items].
  apply keeps_registry_bind; [apply keeps_registry_sqlite_call | intros _].
  apply keeps_registry_bind; [intros w; now split | intros [rows|]];
    intros w; now split.
Qed.

Lemma keeps_registry_Queue___init__ n : keeps_registry (Queue___init__ n).
Proof.
  unfold Queue___init__, Queue_load_persistent_data, Queue_disconnect, time_time.
  apply keeps_registry_bind; [intros w; now split | intros self].
  apply keeps_registry_bind.
  - apply keeps_registry_bind.
    { intros w. unfold manager_storage, gets, mbind, Py_bind.
      now destruct (storage (manager w)). }
    intros s. apply keeps_registry_bind.
    { intros w. unfold get_queue_obj. now destruct (queue_objs w !! self). }
    intros q. apply keeps_registry_bind; [apply keeps_registry_get_items|].
    intros l w. now split.
  - intros _. apply keeps_registry_bind; [|intros _; apply keeps_registry_ret].
    apply keeps_registry_bind; [intros w; now split | intros t].
    apply keeps_registry_bind.
    { intros w. unfold get_queue_obj. now destruct (queue_objs w !! self). }
    intros _ w. now split.
Qed.

(** X17: a [get_queue] that raises registers nothing: the name was not
    registered before, the dictionary and the storage handle are as they
    were, and so is the table.  The next [get_queue] of the name builds the
    queue anew. *)
Theorem get_queue_failure_registers_nothing n w e w' :
  QueuesManager_get_queue n w = (Raise e, w') ->
  dict_get n (queues (manager w)) = None /\
  manager w' = manager w /\
  database w' = database w.
Proof.
  intros Hrun. unfold QueuesManager_get_queue in Hrun.
  erewrite bind_ret in Hrun by reflexivity.
  destruct (dict_get n (queues (manager w))) as [q|]; [discriminate Hrun|].
  split; [reflexivity|].
  pose proof (keeps_registry_Queue___init__ n w) as Hk.
  unfold mbind at 1, Py_bind at 1 in Hrun.
  destruct (Queue___init__ n w) as [[q|e0] w0]; cbn [snd] in Hk.
  - erewrite bind_ret in Hrun by reflexivity. discriminate Hrun.
  - inversion Hrun; subst. exact Hk.
Qed.

Lemma get_queue_failure_registers_nothing_witness :
  dict_get "mail" (queues (manager (set_faults [true] one_persistent))) = None /\
  manager (snd (QueuesManager_get_queue "mail" (set_faults [true] one_persistent)))
    = manager (set_faults [true] one_persistent) /\
  database (snd (QueuesManager_get_queue "mail" (set_faults [true] one_persistent)))
    = database (set_faults [true] one_persistent).
Proof.
  apply (get_queue_failure_registers_nothing "mail"
           (set_faults [true] one_persistent) OperationalError
           (snd (QueuesManager_get_queue "mail" (set_faults [true] one_persistent)))).
  vm_compute. reflexivity.
Defined.

(** ** What a reader sees when connect completes *)

(** X18: take a queue whose items are distinct objects with a ttl [>= 0], a
    sound storage, and calls of push, get, pop, connect and disconnect that
    push only objects with a float ttl, none of them twice and none that is
    in the sequence at the start.  After the calls, [get] returns nothing,
    or an item whose ttl is [>= 0], or an item pushed since the last
    [connect] (push checks no ttl). *)
Theorem get_returns_alive_or_recent w self q s rows cs :
  queue_objs w !! self = Some q ->
  is_Some (last_disconnect_absolute q) ->
  storage (manager w) = Some s ->
  sound s rows w ->
  NoDup (queue q ++ pushed cs) ->
  (forall a, a ∈ queue q ++ pushed cs ->
     exists it t, items w !! a = Some it /\ ttl it = Some t) ->
  (forall a it t, a ∈ queue q -> items w !! a = Some it -> ttl it = Some t ->
     PrimFloat.leb 0%float t = true) ->
  exists w' r,
    (run_calls self cs ;; Queue_get self) w = (Ret r, w') /\
    match r with
    | None => True
    | Some a =>
        exists it t, items w' !! a = Some it /\ ttl it = Some t /\
          (PrimFloat.leb 0%float t = true \/
           a ∈ pushed_since_connect cs [])
    end.
Proof.
  intros Hq Hlda Hst Hs Hnd Hv Hal.
  destruct (readable_run self cs [] w) as (w' & Hrun & Hinv).
  { exists q, s, rows. repeat split; try assumption; try apply Hs.
    - intros a Ha. destruct (Hv a Ha) as (it & t & Hit & Ht).
      exists it. split; [exact Hit | now exists t].
    - intros a it Ha Hit. left.
      destruct (Hv a) as (it' & t & Hit' & Ht); [apply elem_of_app; now left|].
      rewrite Hit in Hit'. inversion Hit'; subst it'.
      unfold alive. rewrite Ht. now apply (Hal a it t). }
  destruct Hinv as (q' & s' & rows' & Hq' & _ & _ & _ & _ & Hv' & Hal').
  exists w', (head (queue q')). split.
  - erewrite bind_ret by exact Hrun. now apply Queue_get_ok.
  - destruct (queue q') as [|a l] eqn:He; [exact I|]. cbn [head].
    destruct (Hv' a) as (it & Hit & [t Ht]); [left|].
    exists it, t. split; [exact Hit|]. split; [exact Ht|].
    destruct (Hal' a it) as [Halive|Hrecent]; [left | exact Hit | |now right].
    left. unfold alive in Halive. now rewrite Ht in Halive.
Qed.

Lemma get_returns_alive_or_recent_witness :
  exists w' r,
    (run_calls 0%nat push_wait_connect_pop ;; Queue_get 0%nat) empty_jobs
      = (Ret r, w') /\
    match r with
    | None => True
    | Some a =>
        exists it t, items w' !! a = Some it /\ ttl it = Some t /\
          (PrimFloat.leb 0%float t = true \/
           a ∈ pushed_since_connect push_wait_connect_pop [])
    end.
Proof.
  apply (get_returns_alive_or_recent empty_jobs 0%nat
           (mkQueue "jobs" [] (Some 0%float)) (mkStorage false) []
           push_wait_connect_pop eq_refl).
  - now exists 0%float.
  - reflexivity.
  - now repeat split.
  - apply (bool_decide_unpack _). vm_compute. exact I.
  - intros a Ha. cbn in Ha.
    repeat (apply elem_of_cons in Ha as [->|Ha];
            [eexists _, _; split; reflexivity|]).
    now apply elem_of_nil in Ha.
  - intros a it t Ha. now apply elem_of_nil in Ha.
Defined.

(** ** What sqlite3 refuses *)

(** X19: on an open storage that has its table, [push] of a persistent
    item whose flags do not fit the 64 bits of an sqlite integer raises
    [OverflowError] when the INSERT binds its parameters: the item is in the
    in-memory sequence, and the storage has no record of it. *)
Theorem push_flags_beyond_64_bits_stores_nothing w self q s rows a it :
  queue_objs w !! self = Some q ->
  storage (manager w) = Some s ->
  conn_closed s = false ->
  database w = Some rows ->
  items w !! a = Some it ->
  Z.odd (flags it) = true ->
  (flags it < - 2 ^ 63 \/ 2 ^ 63 - 1 < flags it) ->
  exists w',
    Queue_push self a w = (Raise OverflowError, w') /\
    queue_objs w' !! self =
      Some (mkQueue (name q) (queue q ++ [a]) (last_disconnect_absolute q)) /\
    items w' = items w /\
    database w' = Some rows.
Proof.
  intros Hq Hst Hc Hd Hit Hodd Hrange.
  assert (Hp : persistent it = true).
  { unfold persistent, FLAG_PERSISTENT.
    change 1 with (Z.ones 1). rewrite Z.land_ones by lia.
    change (2 ^ 1) with 2. rewrite Zmod_odd. now rewrite Hodd. }
  assert (Hfl : int64 (flags it) = false).
  { unfold int64. apply andb_false_iff.
    destruct Hrange as [H|H]; [left | right]; apply Z.leb_gt; lia. }
  eexists.
  split; [exact (Queue_push_overflow _ _ _ _ _ _ _ Hq Hst Hc Hd Hit Hp Hfl)|].
  split; [|now split].
  cbn [queue_objs set_queue_objs]. now rewrite list_lookup_alter_eq, Hq.
Qed.

Lemma push_flags_beyond_64_bits_stores_nothing_witness :
  exists w',
    Queue_push 0%nat 4%nat pushes_of_all_kinds = (Raise OverflowError, w') /\
    queue_objs w' !! 0%nat = Some (mkQueue "jobs" [4%nat] (Some 0%float)) /\
    items w' = items pushes_of_all_kinds /\
    database w' = Some [].
Proof.
  apply (push_flags_beyond_64_bits_stores_nothing pushes_of_all_kinds 0%nat
           (mkQueue "jobs" [] (Some 0%float)) (mkStorage false) [] 4%nat
           (mkItem "o" "w" 4%float (2 ^ 63 + 1))
           eq_refl eq_refl eq_refl eq_refl eq_refl eq_refl).
  right. reflexivity.
Defined.

(** X20: [close] on a manager whose storage connection is closed already
    raises [ProgrammingError] at [self.storage.close()]: the queues are
    deregistered, but the manager keeps its storage object, and the table is
    as it was. *)
Theorem close_on_closed_storage_raises w s :
  storage (manager w) = Some s ->
  conn_closed s = true ->
  exists w',
    QueuesManager_close w = (Raise ProgrammingError, w') /\
    queues (manager w') = [] /\
    storage (manager w') = Some s /\
    queue_objs w' = queue_objs w /\
    items w' = items w /\
    database w' = database w.
Proof.
  intros Hst Hc. eexists.
  split; [exact (QueuesManager_close_closed _ _ Hst Hc)|].
  now repeat split.
Qed.

Lemma close_on_closed_storage_raises_witness :
  exists w',
    QueuesManager_close
      (set_manager (set_storage (Some (mkStorage true))) one_persistent)
      = (Raise ProgrammingError, w') /\
    queues (manager w') = [] /\
    storage (manager w') = Some (mkStorage true) /\
    queue_objs w' = queue_objs one_persistent /\
    items w' = items one_persistent /\
    database w' = database one_persistent.
Proof.
  exact (close_on_closed_storage_raises
           (set_manager (set_storage (Some (mkStorage true))) one_persistent)
           (mkStorage true) eq_refl eq_refl).
Defined.
